(** * py-scrape-quotes: the crawl / parse / dedupe / serialise pipeline of
      [app/parse.py], embedded in Rocq.

    The program talks to three things outside itself: an HTTP site
    ([requests.get]), an HTML tree ([BeautifulSoup] and its CSS selectors)
    and the file system ([open] and [csv.writer]).  Each is modelled as far
    as the program uses it:

    - a character is a code point below 256 and a Python [str] is a Rocq
      [string];
    - a page is the tree [html.parser] builds from the response body; the
      site is a function from URLs to responses;
    - the run threads a [world]: the chronological trace of requests and of
      [logging.info] records, and the files;
    - a file is found under its path as the path is written, and a write
      to a file that is open succeeds: links, the working directory, a full
      disk and characters that cannot be encoded are outside the model, and
      [open] is the one call of the serialiser that raises;
    - a Python exception is a [Raise] result; nothing in [parse.py] has a
      [try], so [bind] is the only way an exception travels;
    - the [while] loop of [get_all_quotes_and_authors] has no bound of its
      own, so it takes fuel, and an exhausted fuel is the result [Spin]. *)

From Stdlib Require Import String Ascii List Bool Arith Lia.
Import ListNotations.
Set Warnings "-register-all".
Local Open Scope string_scope.
Local Open Scope list_scope.
Local Open Scope nat_scope.

(* ------------------------------------------------------------------ *)
(** ** Python strings *)

Module PyStr.

(** [str.isspace] on one character, for code points below 256:
    TAB..CR, FS..US, SPACE, NEL (0x85) and NBSP (0xA0). *)
Definition isspace (c : ascii) : bool :=
  let n := nat_of_ascii c in
  ((9 <=? n) && (n <=? 13)) || ((28 <=? n) && (n <=? 32))
  || (n =? 133) || (n =? 160).

Fixpoint lstrip (s : string) : string :=
  match s with
  | EmptyString => EmptyString
  | String c s' => if isspace c then lstrip s' else s
  end.

Fixpoint rstrip (s : string) : string :=
  match s with
  | EmptyString => EmptyString
  | String c s' =>
      match rstrip s' with
      | EmptyString => if isspace c then EmptyString else String c EmptyString
      | r => String c r
      end
  end.

(** [str.strip()] with no argument. *)
Definition strip (s : string) : string := rstrip (lstrip s).

(** [sep.join(parts)]. *)
Definition join (sep : string) (parts : list string) : string :=
  String.concat sep parts.

Definition is_empty (s : string) : bool :=
  match s with EmptyString => true | _ => false end.

Definition contains (c : ascii) (s : string) : bool :=
  existsb (Ascii.eqb c) (list_ascii_of_string s).

Definition hex_digit (n : nat) : ascii :=
  if n <? 10 then ascii_of_nat (48 + n) else ascii_of_nat (87 + n).

(** The escape [\xhh] of a code point below 256. *)
Definition hex_escape (c : ascii) : string :=
  let n := nat_of_ascii c in
  String "\" (String "x" (String (hex_digit (n / 16))
                            (String (hex_digit (n mod 16)) EmptyString))).

(** [str.isprintable] on one character above DEL, below 256. *)
Definition isprintable_high (c : ascii) : bool :=
  let n := nat_of_ascii c in (161 <=? n) && negb (n =? 173).

Definition squote : ascii := "'"%char.
Definition dquote : ascii := "034"%char.

(** The quote [repr] wraps a string in: double quotes only when the
    string holds a single quote and no double quote. *)
Definition repr_quote (s : string) : ascii :=
  if contains squote s && negb (contains dquote s) then dquote else squote.

Definition repr_char (q c : ascii) : string :=
  let n := nat_of_ascii c in
  if Ascii.eqb c q || Ascii.eqb c "\"%char then String "\" (String c EmptyString)
  else if n =? 9 then "\t"
  else if n =? 10 then "\n"
  else if n =? 13 then "\r"
  else if (n <? 32) || (n =? 127) then hex_escape c
  else if n <? 127 then String c EmptyString
  else if isprintable_high c then String c EmptyString
  else hex_escape c.

Fixpoint repr_body (q : ascii) (s : string) : string :=
  match s with
  | EmptyString => EmptyString
  | String c s' => (repr_char q c ++ repr_body q s')%string
  end.

(** [repr(s)] for a [str]. *)
Definition repr (s : string) : string :=
  let q := repr_quote s in
  String q (repr_body q s ++ String q EmptyString)%string.

(** [str(l)] for a list of [str]: the list literal. *)
Definition str_of_list (l : list string) : string :=
  ("[" ++ join ", " (map repr l) ++ "]")%string.

End PyStr.

(* ------------------------------------------------------------------ *)
(** ** The BeautifulSoup tree and the selectors the program uses *)

Module Soup.

(** A parsed page.  [class_] is the multi-valued [class] attribute as
    BeautifulSoup keeps it (a list), [attrs] the other attributes.
    Comments and the strings of [script] and [style] are not represented. *)
Inductive node : Type :=
| NavigableString (s : string)
| Tag (name : string) (class_ : list string)
      (attrs : list (string * string)) (contents : list node).

(** [.descendants], in document order, each with its parent. *)
Fixpoint descendants (t : node) : list (node * node) :=
  match t with
  | NavigableString _ => []
  | Tag _ _ _ cs =>
      (fix walk (l : list node) : list (node * node) :=
         match l with
         | [] => []
         | c :: l' => (t, c) :: descendants c ++ walk l'
         end) cs
  end.

(** A compound selector: an optional type and an optional class. *)
Record compound : Type :=
  { by_name : option string; by_class : option string }.

(** [c] alone (any descendant of the scope) or [p > c]. *)
Inductive selector : Type :=
| Descendant (c : compound)
| ChildOf (p c : compound).

Definition matches (c : compound) (n : node) : bool :=
  match n with
  | NavigableString _ => false
  | Tag name cls _ _ =>
      match by_name c with
      | None => true
      | Some x => String.eqb x name
      end
      && match by_class c with
         | None => true
         | Some k => existsb (String.eqb k) cls
         end
  end.

Definition selects (sel : selector) (pn : node * node) : bool :=
  match sel with
  | Descendant c => matches c (snd pn)
  | ChildOf p c => matches p (fst pn) && matches c (snd pn)
  end.

(** [t.select(sel)]: the matching descendants, in document order. *)
Definition select (sel : selector) (t : node) : list node :=
  map snd (filter (selects sel) (descendants t)).

(** [t.select_one(sel)]: the first match, or [None]. *)
Definition select_one (sel : selector) (t : node) : option node :=
  hd_error (select sel t).

(** The strings below [t], in document order. *)
Definition strings (t : node) : list string :=
  flat_map (fun pn => match snd pn with
                      | NavigableString s => [s]
                      | Tag _ _ _ _ => []
                      end) (descendants t).

(** [t.text], that is [t.get_text()]. *)
Definition get_text (t : node) : string :=
  PyStr.join EmptyString (strings t).

(** [t.get_text(strip=True)]: every string is stripped on its own and
    the empty ones are dropped before joining. *)
Definition get_text_strip (t : node) : string :=
  PyStr.join EmptyString
    (filter (fun s => negb (PyStr.is_empty s)) (map PyStr.strip (strings t))).

(** [t[key]] on a tag: the attribute dictionary. *)
Fixpoint attr (key : string) (attrs : list (string * string)) : option string :=
  match attrs with
  | [] => None
  | (k, v) :: rest => if String.eqb k key then Some v else attr key rest
  end.

Definition cls (k : string) : selector :=
  Descendant {| by_name := None; by_class := Some k |}.

Definition sel_text : selector := cls "text".                  (* ".text" *)
Definition sel_author : selector := cls "author".              (* ".author" *)
Definition sel_tag : selector := cls "tag".                    (* ".tag" *)
Definition sel_quote : selector := cls "quote".                (* ".quote" *)
Definition sel_author_title : selector := cls "author-title".
Definition sel_author_description : selector := cls "author-description".
Definition sel_a : selector :=                                  (* "a" *)
  Descendant {| by_name := Some "a"; by_class := None |}.
Definition sel_next : selector :=                               (* "li.next > a" *)
  ChildOf {| by_name := Some "li"; by_class := Some "next" |}
          {| by_name := Some "a"; by_class := None |}.

End Soup.
Import Soup.

(* ------------------------------------------------------------------ *)
(** ** Exceptions, results and the world *)

(** Why a request did not complete. *)
Inductive transport_failure : Type :=
| DnsFailure
| ConnectionRefused
| TimedOut.

(** What the site answers to a GET.  [Http status body]: a response came
    back, whatever its status. *)
Inductive response : Type :=
| Failed (k : transport_failure)
| Http (status : nat) (content : node).

Definition site : Type := string -> response.

(** The Python exceptions the program can raise. *)
Inductive exn : Type :=
| RequestException (k : transport_failure)  (* raised inside [requests.get] *)
| AttributeError (attribute : string)       (* [None.text] *)
| TypeError                                 (* [None["href"]] *)
| KeyError (key : string)                   (* [tag["href"]], no such attribute *)
| OSError (path : string).                  (* [open(path, "w")] *)

Inductive result (A : Type) : Type :=
| Ok (a : A)
| Raise (e : exn)
| Spin.                                     (* the loop has not ended yet *)
Arguments Ok {A} a.
Arguments Raise {A} e.
Arguments Spin {A}.

(** The records [logging.info] emits (the level is INFO, so the
    [logging.debug] calls emit nothing). *)
Inductive info : Type :=
| StartingToScrape
| FetchingBioFrom (url : string)
| FetchingBioForNewAuthor (author_name : string)
| FetchingQuotesFromPage (url : string)
| FinishedScraping
| SavingQuotes (path : string)
| QuotesSaved (path : string)
| SavingAuthors (path : string)
| AuthorsSaved (path : string)
| SavedSuccessfully.

Inductive event : Type :=
| Get (url : string)                        (* one [requests.get(url)] *)
| Info (m : info).

(** A path holds a file, holds nothing, or cannot be opened for writing. *)
Inductive fentry : Type :=
| Absent
| File (data : string)
| Unwritable.

Record world : Type :=
  { trace : list event; files : string -> fentry }.

Definition M (A : Type) : Type := world -> world * result A.

Definition ret {A} (a : A) : M A := fun w => (w, Ok a).

Definition bind {A B} (m : M A) (k : A -> M B) : M B :=
  fun w =>
    match m w with
    | (w', Ok a) => k a w'
    | (w', Raise e) => (w', Raise e)
    | (w', Spin) => (w', Spin)
    end.

Definition raise {A} (e : exn) : M A := fun w => (w, Raise e).
Definition spin {A} : M A := fun w => (w, Spin).

(** A pure computation that may raise, run in the world. *)
Definition lift {A} (r : result A) : M A := fun w => (w, r).

Declare Scope io_scope.
Delimit Scope io_scope with io.
Notation "x <- m ;; k" := (bind m (fun x => k))
  (at level 61, m at next level, right associativity) : io_scope.
Notation "m ;; k" := (bind m (fun _ => k))
  (at level 61, right associativity) : io_scope.
Local Open Scope io_scope.

Definition emit (e : event) : M unit :=
  fun w => ({| trace := trace w ++ [e]; files := files w |}, Ok tt).

Definition logging_info (m : info) : M unit := emit (Info m).

(* ------------------------------------------------------------------ *)
(** ** The data model *)

Record Quote : Type :=
  { text : string; author : string; tags : list string }.

Record Author : Type :=
  { name : string; bio : string }.

(** A Python [dict] from [str]: an association list in insertion order. *)
Module Dict.

Definition t (V : Type) : Type := list (string * V).

Definition keys {V} (d : t V) : list string := map fst d.
Definition values {V} (d : t V) : list V := map snd d.

(** [k in d]. *)
Definition contains {V} (k : string) (d : t V) : bool :=
  existsb (String.eqb k) (keys d).

(** [d[k] = v]: a key already there keeps its place, a new one goes last. *)
Fixpoint set {V} (d : t V) (k : string) (v : V) : t V :=
  match d with
  | [] => [(k, v)]
  | (k', v') :: rest =>
      if String.eqb k' k then (k', v) :: rest else (k', v') :: set rest k v
  end.

End Dict.

Definition BASE_URL : string := "https://quotes.toscrape.com/".
Definition OUTPUT_QUOTES_PATH : string := "quotes.csv".
Definition OUTPUT_AUTHORS_PATH : string := "authors.csv".

(* ------------------------------------------------------------------ *)
(** ** The program *)

(** [tag.text] where [tag] may be [None]. *)
Definition text_of (o : option node) : result string :=
  match o with
  | None => Raise (AttributeError "text")
  | Some t => Ok (get_text t)
  end.

(** [tag[key]] where [tag] may be [None]. *)
Definition getitem (o : option node) (key : string) : result string :=
  match o with
  | None => Raise TypeError
  | Some (NavigableString _) => Raise TypeError
  | Some (Tag _ _ attrs _) =>
      match attr key attrs with
      | None => Raise (KeyError key)
      | Some v => Ok v
      end
  end.

Definition parse_single_quote (quote_soup : node) : result Quote :=
  match text_of (select_one sel_text quote_soup) with
  | Ok text =>
      match text_of (select_one sel_author quote_soup) with
      | Ok author =>
          let tags := map get_text_strip (select sel_tag quote_soup) in
          Ok {| text := text; author := author; tags := tags |}
      | Raise e => Raise e
      | Spin => Spin
      end
  | Raise e => Raise e
  | Spin => Spin
  end.

Section Crawl.

Variable web : site.

(** [requests.get(url).content], parsed: the request is made, a
    transport failure raises, any response hands its body over (the
    status is never looked at: there is no [raise_for_status]). *)
Definition requests_get (url : string) : M node :=
  emit (Get url) ;;
  match web url with
  | Failed k => raise (RequestException k)
  | Http _ content => ret content
  end.

Definition parse_author_bio (author_url : string) : M Author :=
  logging_info (FetchingBioFrom (BASE_URL ++ author_url)%string) ;;
  author_soup <- requests_get (BASE_URL ++ author_url)%string ;;
  name <- lift (text_of (select_one sel_author_title author_soup)) ;;
  bio <- lift (text_of (select_one sel_author_description author_soup)) ;;
  ret {| name := PyStr.strip name; bio := PyStr.strip bio |}.

(** One turn of the [for] loop of [get_single_page_quotes]: [authors]
    is the shared dictionary (handed on updated), [quotes_list] the
    list built so far. *)
Definition for_body (quote_soup : node) (authors : Dict.t Author)
           (quotes_list : list Quote) : M (list Quote * Dict.t Author) :=
  quote <- lift (parse_single_quote quote_soup) ;;
  author_url <- lift (getitem (select_one sel_a quote_soup) "href") ;;
  authors' <- (if Dict.contains (author quote) authors
               then ret authors
               else
                 logging_info (FetchingBioForNewAuthor (author quote)) ;;
                 a <- parse_author_bio author_url ;;
                 ret (Dict.set authors (author quote) a)) ;;
  ret (quotes_list ++ [quote], authors').

Fixpoint for_quote_soup (quotes : list node) (authors : Dict.t Author)
         (quotes_list : list Quote) : M (list Quote * Dict.t Author) :=
  match quotes with
  | [] => ret (quotes_list, authors)
  | quote_soup :: rest =>
      st <- for_body quote_soup authors quotes_list ;;
      for_quote_soup rest (snd st) (fst st)
  end.

Definition get_single_page_quotes (page_soup : node) (authors : Dict.t Author)
  : M (list Quote * Dict.t Author) :=
  for_quote_soup (select sel_quote page_soup) authors [].

(** The state of the [while] loop of [get_all_quotes_and_authors]. *)
Record crawl_state : Type :=
  { soup : node; all_quotes : list Quote; authors : Dict.t Author }.

(** One turn of the [while next_button:] loop. *)
Definition while_body (next_button : node) (st : crawl_state) : M crawl_state :=
  href <- lift (getitem (Some next_button) "href") ;;
  let next_page_url := (BASE_URL ++ href)%string in
  logging_info (FetchingQuotesFromPage next_page_url) ;;
  soup' <- requests_get next_page_url ;;
  page <- get_single_page_quotes soup' (authors st) ;;
  ret {| soup := soup';
         all_quotes := all_quotes st ++ fst page;
         authors := snd page |}.

(** The loop itself.  A tag is always truthy, so the test is
    [next_button is not None].  One unit of fuel per turn. *)
Fixpoint while_next_button (fuel : nat) (st : crawl_state) : M crawl_state :=
  match select_one sel_next (soup st) with
  | None => ret st
  | Some next_button =>
      match fuel with
      | O => spin
      | S fuel' =>
          st' <- while_body next_button st ;;
          while_next_button fuel' st'
      end
  end.

Definition get_all_quotes_and_authors (fuel : nat)
  : M (list Quote * Dict.t Author) :=
  logging_info StartingToScrape ;;
  soup <- requests_get BASE_URL ;;
  page <- get_single_page_quotes soup [] ;;
  st <- while_next_button fuel
          {| soup := soup; all_quotes := [] ++ fst page; authors := snd page |} ;;
  logging_info FinishedScraping ;;
  ret (all_quotes st, authors st).

End Crawl.

(* ------------------------------------------------------------------ *)
(** ** The serialiser *)

(** [csv.writer(file)] with the default dialect: comma delimiter, the
    double quote as quote character (doubled inside a quoted field),
    minimal quoting, line end CR LF. *)
Module Csv.

Definition CR : ascii := ascii_of_nat 13.
Definition LF : ascii := ascii_of_nat 10.
Definition CRLF : string := String CR (String LF EmptyString).

(** What a row may hold here: a [str] or a list of [str]. *)
Inductive cell : Type :=
| CStr (s : string)
| CList (l : list string).

(** A cell that is not a [str] is written as [str(cell)]. *)
Definition cell_text (c : cell) : string :=
  match c with
  | CStr s => s
  | CList l => PyStr.str_of_list l
  end.

(** The characters that force a field into quotes. *)
Definition special (c : ascii) : bool :=
  Ascii.eqb c ","%char || Ascii.eqb c PyStr.dquote
  || Ascii.eqb c CR || Ascii.eqb c LF.

Fixpoint double_quotes (s : string) : string :=
  match s with
  | EmptyString => EmptyString
  | String c s' =>
      if Ascii.eqb c PyStr.dquote
      then String c (String c (double_quotes s'))
      else String c (double_quotes s')
  end.

Definition field (s : string) : string :=
  if existsb special (list_ascii_of_string s)
  then String PyStr.dquote (double_quotes s ++ String PyStr.dquote EmptyString)%string
  else s.

(** The text one [writerow] produces. *)
Definition row (cells : list cell) : string :=
  match map cell_text cells with
  | [EmptyString] =>
      (String PyStr.dquote (String PyStr.dquote EmptyString) ++ CRLF)%string
  | fields => (PyStr.join "," (map field fields) ++ CRLF)%string
  end.

End Csv.

(** The file under [path] becomes [e].  Paths are told apart as
    strings: two spellings of one path are two files here. *)
Definition set_file (w : world) (path : string) (e : fentry) : world :=
  {| trace := trace w;
     files := fun p => if String.eqb p path then e else files w p |}.

(** [open(path, mode='w', newline='', encoding='utf-8')]: the file is
    created or truncated, or the call raises; no newline translation. *)
Definition open_w (path : string) : M unit :=
  fun w =>
    match files w path with
    | Unwritable => (w, Raise (OSError path))
    | Absent | File _ => (set_file w path (File EmptyString), Ok tt)
    end.

(** Text written to the file opened at [path] goes to its end.  The
    write of an open file does not fail here. *)
Definition file_write (path : string) (s : string) : M unit :=
  fun w =>
    match files w path with
    | File d => (set_file w path (File (d ++ s)%string), Ok tt)
    | Absent | Unwritable => (w, Raise (OSError path))
    end.

Definition writerow (path : string) (cells : list Csv.cell) : M unit :=
  file_write path (Csv.row cells).

Definition quote_row (quote : Quote) : list Csv.cell :=
  [Csv.CStr (text quote); Csv.CStr (author quote); Csv.CList (tags quote)].

Definition author_row (a : Author) : list Csv.cell :=
  [Csv.CStr (name a); Csv.CStr (bio a)].

Fixpoint for_quote (path : string) (quotes : list Quote) : M unit :=
  match quotes with
  | [] => ret tt
  | quote :: rest => writerow path (quote_row quote) ;; for_quote path rest
  end.

Definition save_quotes_to_csv (quotes : list Quote) (output_csv_path : string)
  : M unit :=
  logging_info (SavingQuotes output_csv_path) ;;
  open_w output_csv_path ;;
  writerow output_csv_path [Csv.CStr "text"; Csv.CStr "author"; Csv.CStr "tags"] ;;
  for_quote output_csv_path quotes ;;
  logging_info (QuotesSaved output_csv_path).

Fixpoint for_author (path : string) (authors : list Author) : M unit :=
  match authors with
  | [] => ret tt
  | a :: rest => writerow path (author_row a) ;; for_author path rest
  end.

Definition save_authors_to_csv (authors : Dict.t Author) (output_csv_path : string)
  : M unit :=
  logging_info (SavingAuthors output_csv_path) ;;
  open_w output_csv_path ;;
  writerow output_csv_path [Csv.CStr "name"; Csv.CStr "bio"] ;;
  for_author output_csv_path (Dict.values authors) ;;
  logging_info (AuthorsSaved output_csv_path).

Definition main (web : site) (fuel : nat) (output_quotes_csv_path : string)
  : M unit :=
  crawl <- get_all_quotes_and_authors web fuel ;;
  save_quotes_to_csv (fst crawl) output_quotes_csv_path ;;
  save_authors_to_csv (snd crawl) OUTPUT_AUTHORS_PATH ;;
  logging_info SavedSuccessfully.

(** The world a run starts in: nothing traced yet. *)
Definition start (fs : string -> fentry) : world :=
  {| trace := []; files := fs |}.

Definition no_files : string -> fentry := fun _ => Absent.

(* ------------------------------------------------------------------ *)
(** ** Reading a trace, a result and a site *)

(** The URLs requested, in order. *)
Definition requested (tr : list event) : list string :=
  flat_map (fun e => match e with Get u => [u] | Info _ => [] end) tr.

(** The author names a bio fetch was started for, in order. *)
Definition bios_started (tr : list event) : list string :=
  flat_map (fun e => match e with
                     | Info (FetchingBioForNewAuthor n) => [n]
                     | _ => []
                     end) tr.

(** The URLs [parse_author_bio] was entered with, in order. *)
Definition bios_announced (tr : list event) : list string :=
  flat_map (fun e => match e with
                     | Info (FetchingBioFrom u) => [u]
                     | _ => []
                     end) tr.

(** The listing pages the [while] loop went on to, in order. *)
Definition pages_announced (tr : list event) : list string :=
  flat_map (fun e => match e with
                     | Info (FetchingQuotesFromPage u) => [u]
                     | _ => []
                     end) tr.

(** The error taxonomy of the specification, as a classification of the
    exceptions the program raises. *)
Inductive error_class : Type :=
| NetworkError
| MalformedPageError
| IOError.

Definition classify (e : exn) : error_class :=
  match e with
  | RequestException _ => NetworkError
  | AttributeError _ | TypeError | KeyError _ => MalformedPageError
  | OSError _ => IOError
  end.

(** A request that came back with a status below 400 (what
    [Response.ok] tests); anything else did not complete with success. *)
Definition completes (r : response) : bool :=
  match r with
  | Failed _ => false
  | Http status _ => status <? 400
  end.

Definition is_ok {A} (r : result A) : bool :=
  match r with Ok _ => true | _ => false end.

(** A quote block has its text element, its author-name element and a
    first [a] with an [href]. *)
Definition block_ok (quote_soup : node) : bool :=
  is_ok (text_of (select_one sel_text quote_soup))
  && is_ok (text_of (select_one sel_author quote_soup))
  && is_ok (getitem (select_one sel_a quote_soup) "href").

(** A bio page has its title and its description. *)
Definition bio_ok (author_soup : node) : bool :=
  is_ok (text_of (select_one sel_author_title author_soup))
  && is_ok (text_of (select_one sel_author_description author_soup)).

(** The names of [names] not in [seen], each at its first occurrence. *)
Fixpoint first_seen (seen names : list string) : list string :=
  match names with
  | [] => []
  | n :: rest =>
      if existsb (String.eqb n) seen
      then first_seen seen rest
      else n :: first_seen (seen ++ [n]) rest
  end.

(** The pages behind the URLs that answer. *)
Definition pages_of (web : site) (urls : list string) : list node :=
  flat_map (fun u => match web u with
                     | Http _ content => [content]
                     | Failed _ => []
                     end) urls.

(** Pagination is a finite chain: from [page], the next links lead
    through exactly [urls], every one answers, and the last page has no
    next link. *)
Fixpoint chain_from (web : site) (page : node) (urls : list string) : bool :=
  match urls with
  | [] => match select_one sel_next page with None => true | Some _ => false end
  | u :: rest =>
      match getitem (select_one sel_next page) "href" with
      | Ok href =>
          String.eqb (BASE_URL ++ href)%string u
          && match web u with
             | Http _ page' => chain_from web page' rest
             | Failed _ => false
             end
      | _ => false
      end
  end.

(** [h] is a link the program extracts from the listing page [page]:
    the [href] of the next button, or of the first [a] of a quote block. *)
Definition link_on (page : node) (h : string) : Prop :=
  getitem (select_one sel_next page) "href" = Ok h
  \/ exists quote_soup,
       In quote_soup (select sel_quote page)
       /\ getitem (select_one sel_a quote_soup) "href" = Ok h.

(** Reference resolution, for comparison with what the program does:
    "resolved against the base URL" read as RFC 3986, section 5.2.2, for a
    reference that is an absolute path (one leading slash, no dot
    segment, no query, no fragment) against a hierarchical base.  Other
    references are left undecided. *)
Module Url.

Fixpoint split_on (c : ascii) (s : string) : list string :=
  match s with
  | EmptyString => [EmptyString]
  | String x s' =>
      if Ascii.eqb x c then EmptyString :: split_on c s'
      else match split_on c s' with
           | [] => [String x EmptyString]
           | seg :: segs => String x seg :: segs
           end
  end.

Definition plain_segment (seg : string) : bool :=
  negb (String.eqb seg ".") && negb (String.eqb seg "..")
  && negb (PyStr.contains "?"%char seg) && negb (PyStr.contains "#"%char seg).

(** [scheme://authority] of a base [scheme://authority/...]. *)
Definition origin (base : string) : option string :=
  match split_on "/"%char base with
  | scheme :: EmptyString :: authority :: _ =>
      if PyStr.is_empty authority then None
      else Some (scheme ++ "//" ++ authority)%string
  | _ => None
  end.

Definition resolve (base ref : string) : option string :=
  match split_on "/"%char ref with
  | EmptyString :: first :: segs =>
      if negb (PyStr.is_empty first || PyStr.is_empty base)
         && forallb plain_segment (first :: segs)
      then option_map (fun o => (o ++ ref)%string) (origin base)
      else None
  | _ => None
  end.

End Url.

(** Hoare triples over the world. *)
Definition hoare {A} (P : world -> Prop) (m : M A)
           (Q : world -> result A -> Prop) : Prop :=
  forall w, P w -> Q (fst (m w)) (snd (m w)).

(** A postcondition: [R] of the value returned, [E] of a run that ended
    otherwise ([Some e]: the exception [e] is raised; [None]: the loop
    has not ended). *)
Definition post {A} (R : A -> world -> Prop) (E : world -> option exn -> Prop)
  : world -> result A -> Prop :=
  fun w r =>
    match r with
    | Ok a => R a w
    | Raise e => E w (Some e)
    | Spin => E w None
    end.

(* ------------------------------------------------------------------ *)
(** ** Building pages for the examples *)

Module Page.

Definition str (s : string) : node := NavigableString s.
Definition el (name : string) (classes : list string)
           (attrs : list (string * string)) (contents : list node) : node :=
  Tag name classes attrs contents.

Definition tag_link (t : string) : node :=
  el "a" ["tag"] [("href", "/tag/" ++ t ++ "/")%string] [str t].

(** A quote block laid out as the site lays it out. *)
Definition quote_block (txt who about : string) (tag_names : list string) : node :=
  el "div" ["quote"] []
     [ el "span" ["text"] [] [str txt];
       el "span" [] []
          [ str "by "; el "small" ["author"] [] [str who];
            el "a" [] [("href", about)] [str "(about)"] ];
       el "div" ["tags"] [] (str "Tags: " :: map tag_link tag_names) ].

Definition next_link (href : string) : node :=
  el "ul" ["pager"] []
     [ el "li" ["next"] [] [ el "a" [] [("href", href)] [str "Next"] ] ].

Definition document (body : list node) : node :=
  el "[document]" [] [] [ el "html" [] [] [ el "body" [] [] body ] ].

Definition bio_page (title description : string) : node :=
  document [ el "h3" ["author-title"] [] [str title];
             el "div" ["author-description"] [] [str description] ].

Definition not_found : node := document [ el "h1" [] [] [str "404"] ].

End Page.

(** The sites and blocks the examples run on. *)
Module Example.

Definition url (path : string) : string := (BASE_URL ++ path)%string.

(** Two listing pages: A and B on the first, B and C on the second. *)
Definition page1 : node :=
  Page.document
    [ Page.quote_block "q1" "A" "/author/A" ["life"; "love"];
      Page.quote_block "q2" "B" "/author/B" [];
      Page.next_link "/page/2/" ].

Definition page2 : node :=
  Page.document
    [ Page.quote_block "q3" "B" "/author/B" ["truth"];
      Page.quote_block "q4" "C" "/author/C" [] ].

Definition site_abc : site := fun u =>
  if String.eqb u BASE_URL then Http 200 page1
  else if String.eqb u (url "/page/2/") then Http 200 page2
  else if String.eqb u (url "/author/A") then Http 200 (Page.bio_page "A" "bio of A")
  else if String.eqb u (url "/author/B") then Http 200 (Page.bio_page "B" "bio of B")
  else if String.eqb u (url "/author/C") then Http 200 (Page.bio_page "C" "bio of C")
  else Http 404 Page.not_found.

(** One quote; the author page answers 404 with an error page. *)
Definition page_solo : node :=
  Page.document [ Page.quote_block "q1" "A" "/author/A" ["life"] ].

Definition site_404 : site := fun u =>
  if String.eqb u BASE_URL then Http 200 page_solo
  else Http 404 Page.not_found.

(** The same listing; the author page cannot be reached. *)
Definition site_down : site := fun u =>
  if String.eqb u BASE_URL then Http 200 page_solo
  else Failed ConnectionRefused.

(** The listing shows one spelling, the bio page another. *)
Definition page_dumas : node :=
  Page.document
    [ Page.quote_block "q1" "Alexandre Dumas fils" "/author/Alexandre-Dumas-fils" [] ].

Definition site_dumas : site := fun u =>
  if String.eqb u BASE_URL then Http 200 page_dumas
  else if String.eqb u (url "/author/Alexandre-Dumas-fils")
       then Http 200 (Page.bio_page " Alexandre Dumas-fils " " born in Paris ")
       else Http 404 Page.not_found.

(** A tag element with markup inside. *)
Definition block_nested_tag : node :=
  Page.el "div" ["quote"] []
    [ Page.el "span" ["text"] [] [Page.str "q"];
      Page.el "small" ["author"] [] [Page.str "A"];
      Page.el "a" [] [("href", "/author/A")] [Page.str "(about)"];
      Page.el "a" ["tag"] [("href", "/tag/deep-thoughts/")]
        [ Page.str "deep "; Page.el "b" [] [] [Page.str "thoughts"] ] ].

(** A block without its text element, between two sound ones. *)
Definition block_no_text : node :=
  Page.el "div" ["quote"] []
    [ Page.el "small" ["author"] [] [Page.str "B"];
      Page.el "a" [] [("href", "/author/B")] [Page.str "(about)"] ].

Definition page_broken : node :=
  Page.document
    [ Page.quote_block "q1" "A" "/author/A" [];
      block_no_text;
      Page.quote_block "q3" "C" "/author/C" [] ].

Definition site_broken : site := fun u =>
  if String.eqb u BASE_URL then Http 200 page_broken
  else if String.eqb u (url "/author/A") then Http 200 (Page.bio_page "A" "bio of A")
  else if String.eqb u (url "/author/C") then Http 200 (Page.bio_page "C" "bio of C")
  else Http 404 Page.not_found.

(** A file system where the authors file cannot be opened. *)
Definition fs_locked_authors : string -> fentry := fun p =>
  if String.eqb p OUTPUT_AUTHORS_PATH then Unwritable
  else if String.eqb p OUTPUT_QUOTES_PATH then File "stale" else Absent.

(** A block with no link to its author's page; its only [a] is a tag. *)
Definition block_tag_link_only : node :=
  Page.el "div" ["quote"] []
    [ Page.el "span" ["text"] [] [Page.str "q2"];
      Page.el "span" [] [] [Page.str "by "; Page.el "small" ["author"] [] [Page.str "A"]];
      Page.el "div" ["tags"] [] [Page.str "Tags: "; Page.tag_link "life"] ].

Definition page_no_about : node :=
  Page.document
    [ Page.quote_block "q1" "A" "/author/A" ["life"]; block_tag_link_only ].

Definition site_no_about : site := fun u =>
  if String.eqb u BASE_URL then Http 200 page_no_about
  else if String.eqb u (url "/author/A") then Http 200 (Page.bio_page "A" "bio of A")
  else Http 404 Page.not_found.

End Example.

(* ------------------------------------------------------------------ *)
(** ** Invariants of a crawl *)

(** Every request is accounted for: one for the base page, one per
    listing page gone on to, one per bio fetch started; and
    [parse_author_bio] was entered once per fetch started. *)
Definition counted (w : world) : Prop :=
  length (requested (trace w))
  = 1 + length (pages_announced (trace w)) + length (bios_started (trace w))
  /\ length (bios_announced (trace w)) = length (bios_started (trace w)).

(** While the crawl goes on: the names a bio fetch was started for are
    the keys of the dictionary, none twice. *)
Definition fetched_once (au : Dict.t Author) (w : world) : Prop :=
  bios_started (trace w) = Dict.keys au /\ NoDup (Dict.keys au) /\ counted w.

(** However the crawl ends: no name had two bio fetches started. *)
Definition fetched_at_most_once (w : world) : Prop :=
  NoDup (bios_started (trace w)) /\ counted w.

(** The keys are the author names of the quotes gathered ([prev] on
    earlier pages, [acc] on this one), in first-seen order. *)
Definition in_first_seen_order (prev : list Quote) (au : Dict.t Author)
           (acc : list Quote) (w : world) : Prop :=
  Dict.keys au = first_seen [] (map author (prev ++ acc)).

(* ------------------------------------------------------------------ *)
(** ** Reading a file back *)

(** The text of a table: its rows, one after another. *)
Definition table (rows : list (list Csv.cell)) : string :=
  PyStr.join EmptyString (map Csv.row rows).

Definition quotes_header : list Csv.cell :=
  [Csv.CStr "text"; Csv.CStr "author"; Csv.CStr "tags"].

Definition authors_header : list Csv.cell :=
  [Csv.CStr "name"; Csv.CStr "bio"].

(** What a reader of the dialect gets back from one written field: a
    field in quotes loses them and has its doubled quotes halved. *)
Fixpoint undouble (s : string) : string :=
  match s with
  | EmptyString => EmptyString
  | String c s' =>
      if Ascii.eqb c PyStr.dquote
      then match s' with
           | EmptyString => EmptyString
           | String _ s'' => String c (undouble s'')
           end
      else String c (undouble s')
  end.

Definition read_field (s : string) : string :=
  match s with
  | EmptyString => EmptyString
  | String c s' => if Ascii.eqb c PyStr.dquote then undouble s' else s
  end.

(** On a page being walked: the quotes built are the parses of the
    blocks done, in order, and no listing page was gone on to meanwhile. *)
Definition parsed_in_order (pages : list string) (done : list node)
           (acc : list Quote) (w : world) : Prop :=
  map Ok acc = map parse_single_quote done
  /\ pages_announced (trace w) = pages.

(* ------------------------------------------------------------------ *)
(** ** Claims of the specification that the program does not meet as
       worded, stated here to be refuted *)

(** "The tags are the tag strings trimmed of surrounding whitespace":
    every tag is the whole text of its element, stripped at both ends. *)
Definition tags_are_trimmed_texts : Prop :=
  forall (quote_soup : node) (quote : Quote),
    parse_single_quote quote_soup = Ok quote ->
    tags quote
    = map (fun e => PyStr.strip (get_text e)) (select sel_tag quote_soup).

(** "A fetch whose request cannot complete, a non-success status
    included, fails with a NetworkError." *)
Definition fetch_fails_when_incomplete : Prop :=
  forall (web : site) (url : string) (w : world),
    completes (web url) = false ->
    exists e, snd (requests_get web url w) = Raise e
              /\ classify e = NetworkError.

(** "The fetched URL is the extracted link resolved against the base
    URL", for the bio link of a quote block. *)
Definition bio_fetched_at_resolved_url : Prop :=
  forall (web : site) (author_url resolved : string) (w : world),
    Url.resolve BASE_URL author_url = Some resolved ->
    requested (trace (fst (parse_author_bio web author_url w)))
    = requested (trace w) ++ [resolved].

(* ------------------------------------------------------------------ *)
(** ** Invariants on what was requested *)

(** Every request of the trace was answered. *)
Definition answered (web : site) (tr : list event) : Prop :=
  forall u, In u (requested tr) -> exists status page, web u = Http status page.

(** How a run stands with the network when it ends otherwise than by
    returning: a [RequestException] comes from the last event of the
    trace, a request that failed, all earlier ones having been answered;
    anything else leaves every request answered. *)
Definition failed_last (web : site) (w : world) (o : option exn) : Prop :=
  match o with
  | Some (RequestException k) =>
      exists tr u, trace w = tr ++ [Get u] /\ web u = Failed k /\ answered web tr
  | _ => answered web (trace w)
  end.

(** [page] is the body of a response to a request of the trace. *)
Definition fetched (web : site) (tr : list event) (page : node) : Prop :=
  exists v status, In v (requested tr) /\ web v = Http status page.

(** Every request is for the base URL, or for the base URL followed by a
    link found on a page fetched before. *)
Definition linked (web : site) (tr : list event) : Prop :=
  forall u,
    In u (requested tr) ->
    u = BASE_URL
    \/ exists page h,
        fetched web tr page /\ link_on page h /\ u = (BASE_URL ++ h)%string.

(** Where a registry entry comes from: the key is the text of the
    author-name element of a quote block of a fetched listing page; the
    value is read off the page behind that block's first link. *)
Definition entry_from (web : site) (tr : list event) (key : string) (a : Author)
  : Prop :=
  exists listing quote_soup author_elem href status author_soup title description,
    fetched web tr listing
    /\ In quote_soup (select sel_quote listing)
    /\ select_one sel_author quote_soup = Some author_elem
    /\ key = get_text author_elem
    /\ getitem (select_one sel_a quote_soup) "href" = Ok href
    /\ web (BASE_URL ++ href)%string = Http status author_soup
    /\ select_one sel_author_title author_soup = Some title
    /\ select_one sel_author_description author_soup = Some description
    /\ a = {| name := PyStr.strip (get_text title);
              bio := PyStr.strip (get_text description) |}.

(** While [listing] is being walked with the registry [au]. *)
Definition traced (web : site) (listing : node) (au : Dict.t Author) (w : world)
  : Prop :=
  linked web (trace w)
  /\ fetched web (trace w) listing
  /\ forall k a, In (k, a) au -> entry_from web (trace w) k a.

(** The hyperlink to the author's page, as the specification tells it
    apart from the tag elements of a quote block: the first [a] that is
    not a tag element. *)
Definition author_link (quote_soup : node) : option node :=
  hd_error
    (filter (fun e => negb (matches {| by_name := None; by_class := Some "tag" |} e))
            (select sel_a quote_soup)).

Definition is_some {A} (o : option A) : bool :=
  match o with Some _ => true | None => false end.

(** A quote block with all the specification requires of it. *)
Definition has_required_elements (quote_soup : node) : bool :=
  is_some (select_one sel_text quote_soup)
  && is_some (select_one sel_author quote_soup)
  && is_ok (getitem (author_link quote_soup) "href").

(** "A quote fragment missing a required element fails with a
    MalformedPageError." *)
Definition missing_element_always_raises : Prop :=
  forall (web : site) (quote_soup : node) (au : Dict.t Author)
         (acc : list Quote) (w : world),
    has_required_elements quote_soup = false ->
    exists e, snd (for_body web quote_soup au acc w) = Raise e
              /\ classify e = MalformedPageError.

(* ------------------------------------------------------------------ *)
(** ** Invariants on the markup met *)

(** All the quote blocks of the listing pages behind [urls] are sound. *)
Definition pages_sound (web : site) (urls : list string) : Prop :=
  forall u status page,
    In u urls -> web u = Http status page ->
    Forall (fun b => block_ok b = true) (select sel_quote page).

(** Every bio page [parse_author_bio] was entered for answered and is
    sound. *)
Definition bios_sound (web : site) (tr : list event) : Prop :=
  forall u, In u (bios_announced tr) ->
            exists status page, web u = Http status page /\ bio_ok page = true.

(** On a page being walked: the blocks done are sound. *)
Definition walked (web : site) (pages : list string) (done : list node) (w : world)
  : Prop :=
  Forall (fun b => block_ok b = true) done
  /\ bios_sound web (trace w)
  /\ pages_announced (trace w) = pages.

(** Between two listing pages: all the pages walked so far are sound. *)
Definition all_sound (web : site) (w : world) : Prop :=
  pages_sound web (BASE_URL :: pages_announced (trace w))
  /\ bios_sound web (trace w).

(* ------------------------------------------------------------------ *)
(** ** Further readings of a run *)

(** The world [w] with the events [tr] after its own. *)
Definition extend (w : world) (tr : list event) : world :=
  {| trace := trace w ++ tr; files := files w |}.

(** A computation that reads nothing of the world: from every world it
    adds the same events, gives the same result and leaves the files. *)
Definition uniform {A} (m : M A) : Prop :=
  exists tr r, forall w, m w = (extend w tr, r).

(** The quote blocks of the listing pages of a trace: the base page and
    the pages gone on to, in order. *)
Definition blocks_walked (web : site) (tr : list event) : list node :=
  flat_map (select sel_quote) (pages_of web (BASE_URL :: pages_announced tr)).

(** Walking [blocks] with the names [seen] on record: the blocks whose
    author name is new, each with the link it carries.  The walk ends at
    a block that does not parse or has no link. *)
Fixpoint new_author_links (seen : list string) (blocks : list node)
  : list (string * string) :=
  match blocks with
  | [] => []
  | b :: rest =>
      match parse_single_quote b, getitem (select_one sel_a b) "href" with
      | Ok q, Ok h =>
          if existsb (String.eqb (author q)) seen
          then new_author_links seen rest
          else (author q, h) :: new_author_links (seen ++ [author q]) rest
      | _, _ => []
      end
  end.

(** While a page is walked, [prev] being the blocks of the pages before. *)
Definition first_links (web : site) (pages : list string) (prev done : list node)
           (au : Dict.t Author) (w : world) : Prop :=
  Forall (fun b => block_ok b = true) (prev ++ done)
  /\ pages_announced (trace w) = pages
  /\ Dict.keys au = map fst (new_author_links [] (prev ++ done))
  /\ bios_announced (trace w)
     = map (fun p => (BASE_URL ++ snd p)%string) (new_author_links [] (prev ++ done))
  /\ forall u, In u (requested (trace w)) ->
               u = BASE_URL \/ In u (pages_announced (trace w))
               \/ In u (bios_announced (trace w)).

(** Between two listing pages. *)
Definition first_links_so_far (web : site) (au : Dict.t Author) (w : world) : Prop :=
  first_links web (pages_announced (trace w)) (blocks_walked web (trace w)) [] au w.

(** More sites and blocks for the examples. *)
Module Sample.

(** Two listing pages whose next links lead to each other. *)
Definition page_a : node := Page.document [ Page.next_link "/page/2/" ].
Definition page_b : node := Page.document [ Page.next_link "/page/1/" ].

Definition site_cycle : site := fun u =>
  if String.eqb u BASE_URL then Http 200 page_a
  else if String.eqb u (Example.url "/page/2/") then Http 200 page_b
  else if String.eqb u (Example.url "/page/1/") then Http 200 page_a
  else Http 404 Page.not_found.

Definition on_cycle (p : node) : Prop := p = page_a \/ p = page_b.

(** A site with nothing on it. *)
Definition page_empty : node := Page.document [ Page.el "h1" [] [] [Page.str "Quotes"] ].

Definition site_empty : site := fun u =>
  if String.eqb u BASE_URL then Http 200 page_empty else Http 404 Page.not_found.

(** One author name under two different links. *)
Definition page_two_links : node :=
  Page.document
    [ Page.quote_block "q1" "A" "/author/A" [];
      Page.quote_block "q2" "A" "/author/Another-A" [] ].

Definition site_two_links : site := fun u =>
  if String.eqb u BASE_URL then Http 200 page_two_links
  else if String.eqb u (Example.url "/author/A") then Http 200 (Page.bio_page "A" "the first A")
  else if String.eqb u (Example.url "/author/Another-A")
       then Http 200 (Page.bio_page "A" "another A")
       else Http 404 Page.not_found.

(** A file system with a file the program has no business with. *)
Definition fs_with_notes : string -> fentry := fun p =>
  if String.eqb p "notes.txt" then File "keep me" else Absent.

End Sample.

(** Between two listing pages: the quotes gathered are the parses of the
    blocks walked. *)
Definition all_parsed (web : site) (st : crawl_state) (w : world) : Prop :=
  map Ok (all_quotes st) = map parse_single_quote (blocks_walked web (trace w)).

(** The URLs the log announces a request for, in order: the listing
    pages gone on to and the bio pages. *)
Definition announced (tr : list event) : list string :=
  flat_map (fun e => match e with
                     | Info (FetchingQuotesFromPage u) => [u]
                     | Info (FetchingBioFrom u) => [u]
                     | _ => []
                     end) tr.

(** The listing page reached from [page] through exactly [urls]: each of
    them is the base URL with the [href] of the next button of the page
    before appended, and each of them answers. *)
Fixpoint page_after (web : site) (page : node) (urls : list string) : option node :=
  match urls with
  | [] => Some page
  | u :: rest =>
      match getitem (select_one sel_next page) "href" with
      | Ok href =>
          if String.eqb (BASE_URL ++ href)%string u
          then match web u with
               | Http _ page' => page_after web page' rest
               | Failed _ => None
               end
          else None
      | _ => None
      end
  end.

(** Every URL of [urls] is the base URL with, appended as it stands, the
    [href] of the next button of the page the URLs before it lead to. *)
Definition next_links_followed (web : site) (page : node) (urls : list string) : Prop :=
  forall pre u post,
    urls = pre ++ u :: post ->
    exists p href,
      page_after web page pre = Some p
      /\ getitem (select_one sel_next p) "href" = Ok href
      /\ u = (BASE_URL ++ href)%string.

(** While the crawl goes on from the base page [page0]: every request
    but the first was announced, and the listing pages gone on to are
    those of the next links, the last of them being at hand. *)
Definition on_the_chain (web : site) (page0 : node) (st : crawl_state) (w : world)
  : Prop :=
  requested (trace w) = BASE_URL :: announced (trace w)
  /\ page_after web page0 (pages_announced (trace w)) = Some (soup st)
  /\ next_links_followed web page0 (pages_announced (trace w)).

(** The same of a crawl that has stopped, wherever it stopped. *)
Definition along_the_chain (web : site) (page0 : node) (w : world) : Prop :=
  requested (trace w) = BASE_URL :: announced (trace w)
  /\ next_links_followed web page0 (pages_announced (trace w)).

(** A character [repr] leaves as it is inside single quotes: printable
    ASCII other than the single quote and the backslash. *)
Definition plain_char (c : ascii) : bool :=
  let n := nat_of_ascii c in
  (32 <=? n) && (n <? 127)
  && negb (Ascii.eqb c PyStr.squote) && negb (Ascii.eqb c "\"%char).

Definition plain (s : string) : bool :=
  forallb plain_char (list_ascii_of_string s).

(** A tag list literal spelt out: every tag between single quotes. *)
Definition single_quoted (s : string) : string :=
  String PyStr.squote (s ++ String PyStr.squote EmptyString)%string.

(* ================================================================== *)
(** * Proofs *)

(** ** The logic of runs *)

Lemma hoare_ret {A} (P : world -> Prop) (a : A) (Q : world -> result A -> Prop) :
  (forall w, P w -> Q w (Ok a)) -> hoare P (ret a) Q.
Proof. intros H w Hw. now apply H. Qed.

Lemma hoare_bind {A B} (P : world -> Prop) (m : M A) (k : A -> M B)
      (R : A -> world -> Prop) (R' : B -> world -> Prop)
      (E : world -> option exn -> Prop) :
  hoare P m (post R E) ->
  (forall a, hoare (R a) (k a) (post R' E)) ->
  hoare P (bind m k) (post R' E).
Proof.
  intros Hm Hk w Hw. specialize (Hm w Hw). unfold bind.
  destruct (m w) as [w1 [a | e | ]]; cbn in *; auto.
  now apply Hk.
Qed.

Lemma hoare_weaken {A} (P P' : world -> Prop) (m : M A)
      (Q Q' : world -> result A -> Prop) :
  hoare P' m Q' ->
  (forall w, P w -> P' w) ->
  (forall w r, Q' w r -> Q w r) ->
  hoare P m Q.
Proof. intros H HP HQ w Hw. apply HQ, H, HP, Hw. Qed.

(** The rule of the [for] loop: an invariant over the blocks done, the
    dictionary and the list built. *)
Lemma for_quote_soup_rule (web : site)
      (I : list node -> Dict.t Author -> list Quote -> world -> Prop)
      (E : world -> option exn -> Prop)
      (blocks : list node) :
  (forall done b rest au acc,
      blocks = done ++ b :: rest ->
      hoare (I done au acc) (for_body web b au acc)
            (post (fun st => I (done ++ [b]) (snd st) (fst st)) E)) ->
  forall rest done au acc,
    blocks = done ++ rest ->
    hoare (I done au acc) (for_quote_soup web rest au acc)
          (post (fun st => I blocks (snd st) (fst st)) E).
Proof.
  intros Hbody rest. induction rest as [| b rest IH]; intros done au acc Eq.
  - cbn. apply hoare_ret. intros w Hw. cbn. rewrite Eq, app_nil_r. exact Hw.
  - cbn. eapply hoare_bind.
    + apply (Hbody done b rest au acc Eq).
    + intros [acc' au']. cbn. apply IH. rewrite Eq, <- app_assoc. reflexivity.
Qed.

(** The rule of the [while] loop. *)
Lemma while_next_button_rule (web : site)
      (I : crawl_state -> world -> Prop)
      (E : world -> option exn -> Prop) :
  (forall a st, select_one sel_next (soup st) = Some a ->
                hoare (I st) (while_body web a st) (post I E)) ->
  (forall st w, I st w -> E w None) ->
  forall fuel st,
    hoare (I st) (while_next_button web fuel st)
          (post (fun st' w => I st' w /\ select_one sel_next (soup st') = None) E).
Proof.
  intros Hbody Hspin fuel.
  induction fuel as [| fuel IH]; intros st; cbn;
    destruct (select_one sel_next (soup st)) as [a |] eqn:Eq.
  - intros w Hw. cbn. now apply Hspin with st.
  - apply hoare_ret. intros w Hw. cbn. auto.
  - eapply hoare_bind.
    + apply (Hbody a st Eq).
    + intros st'. apply IH.
  - apply hoare_ret. intros w Hw. cbn. auto.
Qed.

(** ** Traces and dictionaries *)

Lemma requested_snoc (tr : list event) (e : event) :
  requested (tr ++ [e]) = requested tr ++ match e with Get u => [u] | Info _ => [] end.
Proof. unfold requested. rewrite flat_map_app. cbn. now rewrite app_nil_r. Qed.

Lemma bios_started_snoc (tr : list event) (e : event) :
  bios_started (tr ++ [e])
  = bios_started tr ++ match e with Info (FetchingBioForNewAuthor n) => [n] | _ => [] end.
Proof. unfold bios_started. rewrite flat_map_app. cbn. now rewrite app_nil_r. Qed.

Lemma bios_announced_snoc (tr : list event) (e : event) :
  bios_announced (tr ++ [e])
  = bios_announced tr ++ match e with Info (FetchingBioFrom u) => [u] | _ => [] end.
Proof. unfold bios_announced. rewrite flat_map_app. cbn. now rewrite app_nil_r. Qed.

Lemma pages_announced_snoc (tr : list event) (e : event) :
  pages_announced (tr ++ [e])
  = pages_announced tr ++ match e with Info (FetchingQuotesFromPage u) => [u] | _ => [] end.
Proof. unfold pages_announced. rewrite flat_map_app. cbn. now rewrite app_nil_r. Qed.

Ltac read_trace :=
  cbn [trace files fst snd] in *;
  rewrite ?requested_snoc, ?bios_started_snoc, ?bios_announced_snoc,
    ?pages_announced_snoc;
  cbn [app]; rewrite ?app_nil_r, ?length_app; cbn [length].

(** Run a loop body by cases on everything it inspects. *)
Ltac step_cases :=
  repeat match goal with
         | |- context [match ?x with _ => _ end] =>
             lazymatch x with
             | context [match _ with _ => _ end] => fail
             | _ => destruct x eqn:?
             end; cbn [fst snd bind ret lift raise spin emit logging_info post] in *
         end.

Ltac run_body :=
  unfold for_body, while_body, get_single_page_quotes, parse_author_bio,
    requests_get, bind, ret, lift, raise, spin, logging_info, emit;
  cbn [fst snd]; step_cases.

Lemma contains_In {V} (k : string) (d : Dict.t V) :
  Dict.contains k d = true <-> In k (Dict.keys d).
Proof.
  unfold Dict.contains. rewrite existsb_exists. split.
  - intros [x [Hx E]]. apply String.eqb_eq in E. now subst.
  - intros H. exists k. split; [exact H | apply String.eqb_refl].
Qed.

Lemma contains_false {V} (k : string) (d : Dict.t V) :
  Dict.contains k d = false <-> ~ In k (Dict.keys d).
Proof.
  rewrite <- contains_In. destruct (Dict.contains k d); split; congruence.
Qed.

Lemma keys_set_new {V} (d : Dict.t V) (k : string) (v : V) :
  Dict.contains k d = false ->
  Dict.keys (Dict.set d k v) = Dict.keys d ++ [k].
Proof.
  induction d as [| [k' v'] d IH]; cbn; intros H; [reflexivity |].
  unfold Dict.contains in H. cbn in H. apply orb_false_iff in H as [H1 H2].
  rewrite String.eqb_sym, H1. cbn. f_equal. now apply IH.
Qed.

Lemma set_new {V} (d : Dict.t V) (k : string) (v : V) :
  Dict.contains k d = false -> Dict.set d k v = d ++ [(k, v)].
Proof.
  induction d as [| [k' v'] d IH]; cbn; intros H; [reflexivity |].
  unfold Dict.contains in H. cbn in H. apply orb_false_iff in H as [H1 H2].
  rewrite String.eqb_sym, H1. f_equal. now apply IH.
Qed.

(** ** At most one bio fetch per author name *)

Lemma NoDup_snoc {A} (l : list A) (a : A) : NoDup l -> ~ In a l -> NoDup (l ++ [a]).
Proof.
  intros Hl Ha. apply NoDup_app; auto.
  - constructor; [intros [] | constructor].
  - intros x Hx [E | []]. now subst.
Qed.

Lemma for_body_once web b au acc :
  hoare (fetched_once au) (for_body web b au acc)
        (post (fun st => fetched_once (snd st)) (fun w _ => fetched_at_most_once w)).
Proof.
  intros w (Hk & Hn & Hc & Hb). rewrite Hk in Hc, Hb.
  run_body; unfold fetched_once, fetched_at_most_once, counted;
    read_trace; rewrite ?Hk.
  all: try match goal with H : Dict.contains _ _ = false |- _ =>
         rewrite ?(keys_set_new _ _ _ H); pose proof (proj1 (contains_false _ _) H) end.
  all: read_trace; repeat split; auto using NoDup_snoc; lia.
Qed.

Lemma for_quote_soup_once web blocks au acc :
  hoare (fetched_once au) (for_quote_soup web blocks au acc)
        (post (fun st => fetched_once (snd st)) (fun w _ => fetched_at_most_once w)).
Proof.
  apply (for_quote_soup_rule web (fun _ au _ => fetched_once au) _ blocks)
    with (done := []); [| reflexivity].
  intros. apply for_body_once.
Qed.

Ltac use_loop L :=
  match goal with
  | H : for_quote_soup ?web ?bl ?au ?acc ?w = (_, _) |- _ =>
      let X := fresh "Hloop" in
      pose proof (L web bl au acc w) as X; rewrite H in X;
      cbn [fst snd post] in X
  end.

Lemma while_body_once web a st :
  hoare (fetched_once (authors st)) (while_body web a st)
        (post (fun st' => fetched_once (authors st')) (fun w _ => fetched_at_most_once w)).
Proof.
  intros w (Hk & Hn & Hc & Hb). rewrite Hk in Hc, Hb.
  run_body; try use_loop for_quote_soup_once;
    unfold fetched_once, fetched_at_most_once, counted in *; read_trace; rewrite ?Hk.
  all: try (apply Hloop; read_trace; rewrite ?Hk).
  all: repeat split; auto; try lia.
Qed.

Lemma while_next_button_once web fuel st :
  hoare (fetched_once (authors st)) (while_next_button web fuel st)
        (post (fun st' => fetched_once (authors st')) (fun w _ => fetched_at_most_once w)).
Proof.
  eapply hoare_weaken.
  - apply (while_next_button_rule web (fun st => fetched_once (authors st))
             (fun w _ => fetched_at_most_once w)).
    + intros. apply while_body_once.
    + intros st' w (Hk & Hn & Hc). split; auto. now rewrite Hk.
  - auto.
  - intros w [st' | e |]; cbn; tauto.
Qed.

Ltac use_while L :=
  match goal with
  | H : while_next_button ?web ?fuel ?st ?w = (_, _) |- _ =>
      let X := fresh "Hwhile" in
      pose proof (L web fuel st w) as X; rewrite H in X;
      cbn [fst snd post] in X
  end.

Ltac feed H :=
  match type of H with
  | ?P -> _ => let X := fresh in assert (X : P); [clear H | specialize (H X); clear X]
  end.

Lemma crawl_once web fuel :
  hoare (fun w => trace w = []) (get_all_quotes_and_authors web fuel)
        (post (fun r => fetched_once (snd r)) (fun w _ => fetched_at_most_once w)).
Proof.
  intros w Hw. unfold get_all_quotes_and_authors.
  run_body; try use_loop for_quote_soup_once; try use_while while_next_button_once;
    cbn [authors soup all_quotes] in *.
  all: try (feed Hloop;
            [unfold fetched_once, counted; read_trace; rewrite Hw; cbn;
             repeat split; constructor |]).
  all: try (feed Hwhile; [exact Hloop |]).
  all: unfold fetched_once, fetched_at_most_once, counted in *; read_trace;
    rewrite ?Hw; cbn.
  all: try tauto.
  all: repeat split; auto; try constructor.
Qed.

(** ** First-seen order *)

Lemma first_seen_In seen names n :
  In n (first_seen seen names) <-> In n names /\ ~ In n seen.
Proof.
  revert seen. induction names as [| x names IH]; intros seen; cbn; [tauto |].
  destruct (existsb (String.eqb x) seen) eqn:E.
  - rewrite IH. apply existsb_exists in E as [y [Hy Ey]]. apply String.eqb_eq in Ey.
    subst y. split; [tauto |]. intros [[-> | H] Hn]; tauto.
  - assert (Hx : ~ In x seen).
    { intros H. rewrite <- not_true_iff_false in E. apply E, existsb_exists.
      exists x. split; [exact H | apply String.eqb_refl]. }
    cbn. rewrite IH, in_app_iff. cbn. split.
    + intros [-> | [H Hn]]; tauto.
    + intros [[-> | H] Hn]; [tauto |].
      destruct (string_dec x n); [tauto |]. right. tauto.
Qed.

Lemma first_seen_NoDup seen names : NoDup (first_seen seen names).
Proof.
  revert seen. induction names as [| x names IH]; intros seen; cbn; [constructor |].
  destruct (existsb (String.eqb x) seen); [apply IH |].
  constructor; [| apply IH].
  rewrite first_seen_In, in_app_iff. cbn. tauto.
Qed.

Lemma first_seen_app seen l1 l2 :
  first_seen seen (l1 ++ l2)
  = first_seen seen l1 ++ first_seen (seen ++ first_seen seen l1) l2.
Proof.
  revert seen. induction l1 as [| x l1 IH]; intros seen; cbn.
  - now rewrite app_nil_r.
  - destruct (existsb (String.eqb x) seen); [apply IH |].
    cbn. rewrite IH, <- app_assoc. reflexivity.
Qed.

Lemma first_seen_snoc names n :
  first_seen [] (names ++ [n])
  = first_seen [] names
    ++ (if existsb (String.eqb n) (first_seen [] names) then [] else [n]).
Proof. rewrite first_seen_app. cbn. now destruct (existsb _ _). Qed.

Lemma for_body_order web prev b au acc :
  hoare (in_first_seen_order prev au acc) (for_body web b au acc)
        (post (fun st => in_first_seen_order prev (snd st) (fst st)) (fun _ _ => True)).
Proof.
  intros w H. unfold in_first_seen_order in *.
  run_body; auto.
  all: rewrite app_assoc, map_app; cbn [map]; rewrite first_seen_snoc, <- H.
  all: unfold Dict.contains in *.
  all: match goal with H : existsb _ _ = _ |- _ => rewrite H end.
  - now rewrite app_nil_r.
  - now apply keys_set_new.
Qed.

Lemma for_quote_soup_order web prev blocks au acc :
  hoare (in_first_seen_order prev au acc) (for_quote_soup web blocks au acc)
        (post (fun st => in_first_seen_order prev (snd st) (fst st)) (fun _ _ => True)).
Proof.
  apply (for_quote_soup_rule web (fun _ => in_first_seen_order prev) _ blocks)
    with (done := []); [| reflexivity].
  intros. apply for_body_order.
Qed.

Lemma while_body_order web a st :
  hoare (in_first_seen_order [] (authors st) (all_quotes st)) (while_body web a st)
        (post (fun st' => in_first_seen_order [] (authors st') (all_quotes st'))
              (fun _ _ => True)).
Proof.
  intros w H. unfold in_first_seen_order in *.
  run_body; try use_loop (fun web => for_quote_soup_order web (all_quotes st)); auto.
  unfold in_first_seen_order in Hloop. cbn [authors all_quotes app] in *.
  apply Hloop. now rewrite app_nil_r.
Qed.

Lemma while_next_button_order web fuel st :
  hoare (in_first_seen_order [] (authors st) (all_quotes st))
        (while_next_button web fuel st)
        (post (fun st' => in_first_seen_order [] (authors st') (all_quotes st'))
              (fun _ _ => True)).
Proof.
  eapply hoare_weaken.
  - apply (while_next_button_rule web
             (fun st => in_first_seen_order [] (authors st) (all_quotes st))
             (fun _ _ => True)).
    + intros. apply while_body_order.
    + auto.
  - auto.
  - intros w [st' | e |]; cbn; tauto.
Qed.

Lemma crawl_order web fuel :
  hoare (fun _ => True) (get_all_quotes_and_authors web fuel)
        (post (fun r _ => Dict.keys (snd r) = first_seen [] (map author (fst r)))
              (fun _ _ => True)).
Proof.
  intros w _. unfold get_all_quotes_and_authors.
  run_body; auto.
  use_loop (fun web => for_quote_soup_order web []).
  use_while while_next_button_order.
  unfold in_first_seen_order in *. cbn [authors all_quotes app] in *.
  apply Hwhile, Hloop. reflexivity.
Qed.

(** ** The serialiser *)

Lemma append_assoc (a b c : string) : ((a ++ b) ++ c = a ++ (b ++ c))%string.
Proof. induction a as [| x a IH]; cbn; [reflexivity | now rewrite IH]. Qed.

Lemma append_empty_r (a : string) : (a ++ EmptyString)%string = a.
Proof. induction a as [| x a IH]; cbn; [reflexivity | now rewrite IH]. Qed.

Lemma table_cons (r : list Csv.cell) (rows : list (list Csv.cell)) :
  table (r :: rows) = (Csv.row r ++ table rows)%string.
Proof.
  unfold table, PyStr.join. cbn [map String.concat].
  destruct (map Csv.row rows) eqn:E; cbn; [now rewrite append_empty_r | reflexivity].
Qed.

(** What a world looks like after [data] has been added to the end of the
    file at [path]. *)
Lemma file_write_spec (path s d : string) (w : world) :
  files w path = File d ->
  file_write path s w = (set_file w path (File (d ++ s)%string), Ok tt).
Proof. intros H. unfold file_write. now rewrite H. Qed.

Lemma for_rows_writes {A} (path : string) (to_row : A -> list Csv.cell)
      (loop : string -> list A -> M unit) :
  (forall p, loop p [] = ret tt) ->
  (forall p x rest, loop p (x :: rest)
                    = bind (writerow p (to_row x)) (fun _ => loop p rest)) ->
  forall (items : list A) (w : world) (d : string),
    files w path = File d ->
    exists w',
      loop path items w = (w', Ok tt)
      /\ trace w' = trace w
      /\ forall p, files w' p
                   = if String.eqb p path
                     then File (d ++ table (map to_row items))%string
                     else files w p.
Proof.
  intros Hnil Hcons items. induction items as [| x items IH]; intros w d Hd.
  - exists w. rewrite Hnil. repeat split. intros p.
    destruct (String.eqb p path) eqn:E; [| reflexivity].
    apply String.eqb_eq in E. subst p. cbn. now rewrite append_empty_r.
  - rewrite Hcons. unfold bind, writerow. rewrite (file_write_spec _ _ _ _ Hd).
    destruct (IH (set_file w path (File (d ++ Csv.row (to_row x))%string))
                 (d ++ Csv.row (to_row x))%string) as (w' & Hrun & Htr & Hfs).
    { cbn. now rewrite String.eqb_refl. }
    exists w'. rewrite Hrun. repeat split; [exact Htr |].
    intros p. rewrite Hfs. cbn [map]. rewrite table_cons, append_assoc.
    cbn. now destruct (String.eqb p path).
Qed.

Lemma for_quote_writes (path : string) (quotes : list Quote) (w : world) (d : string) :
  files w path = File d ->
  exists w',
    for_quote path quotes w = (w', Ok tt)
    /\ trace w' = trace w
    /\ forall p, files w' p
                 = if String.eqb p path
                   then File (d ++ table (map quote_row quotes))%string
                   else files w p.
Proof. apply (for_rows_writes path quote_row for_quote); reflexivity. Qed.

Lemma for_author_writes (path : string) (l : list Author) (w : world) (d : string) :
  files w path = File d ->
  exists w',
    for_author path l w = (w', Ok tt)
    /\ trace w' = trace w
    /\ forall p, files w' p
                 = if String.eqb p path
                   then File (d ++ table (map author_row l))%string
                   else files w p.
Proof. apply (for_rows_writes path author_row for_author); reflexivity. Qed.

Lemma open_w_spec (path : string) (w : world) :
  files w path <> Unwritable ->
  open_w path w = (set_file w path (File EmptyString), Ok tt).
Proof. intros H. unfold open_w. destruct (files w path); congruence. Qed.

Lemma save_quotes_spec (quotes : list Quote) (path : string) (w : world) :
  files w path <> Unwritable ->
  exists w',
    save_quotes_to_csv quotes path w = (w', Ok tt)
    /\ trace w' = trace w ++ [Info (SavingQuotes path); Info (QuotesSaved path)]
    /\ forall p, files w' p
                 = if String.eqb p path
                   then File (table (quotes_header :: map quote_row quotes))
                   else files w p.
Proof.
  intros H. unfold save_quotes_to_csv, bind, logging_info, emit, writerow.
  rewrite open_w_spec by exact H.
  rewrite (file_write_spec _ _ EmptyString) by (cbn; now rewrite String.eqb_refl).
  match goal with |- context [for_quote path quotes ?w0] =>
    destruct (for_quote_writes path quotes w0
                (EmptyString ++ Csv.row quotes_header)%string)
      as (w' & Hrun & Htr & Hfs)
  end.
  { cbn. now rewrite String.eqb_refl. }
  unfold quotes_header in *. rewrite Hrun. eexists. split; [reflexivity |].
  cbn [trace files]. split.
  - rewrite Htr. cbn. now rewrite <- app_assoc.
  - intros p. rewrite Hfs, table_cons. cbn. now destruct (String.eqb p path).
Qed.

Lemma save_authors_spec (au : Dict.t Author) (path : string) (w : world) :
  files w path <> Unwritable ->
  exists w',
    save_authors_to_csv au path w = (w', Ok tt)
    /\ trace w' = trace w ++ [Info (SavingAuthors path); Info (AuthorsSaved path)]
    /\ forall p, files w' p
                 = if String.eqb p path
                   then File (table (authors_header :: map author_row (Dict.values au)))
                   else files w p.
Proof.
  intros H. unfold save_authors_to_csv, bind, logging_info, emit, writerow.
  rewrite open_w_spec by exact H.
  rewrite (file_write_spec _ _ EmptyString) by (cbn; now rewrite String.eqb_refl).
  match goal with |- context [for_author path ?l ?w0] =>
    destruct (for_author_writes path l w0
                (EmptyString ++ Csv.row authors_header)%string)
      as (w' & Hrun & Htr & Hfs)
  end.
  { cbn. now rewrite String.eqb_refl. }
  unfold authors_header in *. rewrite Hrun. eexists. split; [reflexivity |].
  cbn [trace files]. split.
  - rewrite Htr. cbn. now rewrite <- app_assoc.
  - intros p. rewrite Hfs, table_cons. cbn. now destruct (String.eqb p path).
Qed.

Lemma save_unwritable {A} (save : A -> string -> M unit) (x : A) (path : string)
      (m : info) (rest : M unit) (w : world) :
  save x path = bind (logging_info m) (fun _ => bind (open_w path) (fun _ => rest)) ->
  files w path = Unwritable ->
  save x path w
  = ({| trace := trace w ++ [Info m]; files := files w |}, Raise (OSError path)).
Proof.
  intros E H. rewrite E. unfold bind, logging_info, emit, open_w. cbn. now rewrite H.
Qed.

Lemma undouble_double_quotes (s : string) :
  undouble (Csv.double_quotes s ++ String PyStr.dquote EmptyString)%string = s.
Proof.
  induction s as [| c s IH]; [reflexivity |].
  cbn [Csv.double_quotes]. destruct (Ascii.eqb c PyStr.dquote) eqn:E.
  - cbn [append undouble]. rewrite E. now rewrite IH.
  - cbn [append undouble]. rewrite E. now rewrite IH.
Qed.

Lemma read_field_field (s : string) : read_field (Csv.field s) = s.
Proof.
  unfold Csv.field. destruct (existsb Csv.special (list_ascii_of_string s)) eqn:E.
  - cbn. apply undouble_double_quotes.
  - destruct s as [| c s]; [reflexivity |]. cbn in E |- *.
    apply orb_false_iff in E as [E _]. unfold Csv.special in E.
    repeat (apply orb_false_iff in E as [E ?]).
    now replace (Ascii.eqb c PyStr.dquote) with false.
Qed.

(** ** The crawl writes no file *)

Lemma for_quote_soup_files web fs blocks au acc :
  hoare (fun w => files w = fs) (for_quote_soup web blocks au acc)
        (post (fun _ w => files w = fs) (fun w _ => files w = fs)).
Proof.
  apply (for_quote_soup_rule web (fun _ _ _ w => files w = fs) _ blocks)
    with (done := []); [| reflexivity].
  intros done b rest au' acc' _ w Hw. run_body; auto.
Qed.

Lemma while_next_button_files web fs fuel st :
  hoare (fun w => files w = fs) (while_next_button web fuel st)
        (post (fun _ w => files w = fs) (fun w _ => files w = fs)).
Proof.
  eapply hoare_weaken.
  - apply (while_next_button_rule web (fun _ w => files w = fs) (fun w _ => files w = fs)).
    + intros a st' _ w H. run_body; try use_loop (fun web => for_quote_soup_files web fs);
        auto.
    + auto.
  - auto.
  - intros w [st' | e |]; cbn; tauto.
Qed.

Lemma crawl_files web fuel w :
  files (fst (get_all_quotes_and_authors web fuel w)) = files w.
Proof.
  unfold get_all_quotes_and_authors.
  run_body; auto.
  all: try use_loop (fun web => for_quote_soup_files web (files w)).
  all: try use_while (fun web => while_next_button_files web (files w)).
  all: cbn [files] in *; auto.
Qed.

(** ** The claims on the registry and the serialiser *)

(** C1.  In every crawl, however it ends, no author name has two bio
    fetches started, and every request is the base page, a listing page
    gone on to, or the one request of a bio fetch.  When the crawl
    returns, the registry keys are exactly the names a bio fetch was
    started for, none twice, and they are the author names of the
    quotes gathered. *)
Theorem author_fetched_once_per_name
        (web : site) (fuel : nat) (fs : string -> fentry)
        (w : world) (r : result (list Quote * Dict.t Author)) :
  get_all_quotes_and_authors web fuel (start fs) = (w, r) ->
  NoDup (bios_started (trace w))
  /\ counted w
  /\ forall quotes registry,
       r = Ok (quotes, registry) ->
       Dict.keys registry = bios_started (trace w)
       /\ NoDup (Dict.keys registry)
       /\ length registry = length (bios_announced (trace w))
       /\ forall n, In n (Dict.keys registry) <-> In n (map author quotes).
Proof.
  intros Hrun.
  pose proof (crawl_once web fuel (start fs) eq_refl) as Honce.
  pose proof (crawl_order web fuel (start fs) I) as Horder.
  rewrite Hrun in Honce, Horder. cbn [fst snd] in *.
  destruct r as [[quotes registry] | e |]; cbn [post fst snd] in *.
  - destruct Honce as (Hk & Hn & Hc). split; [now rewrite Hk |]. split; [exact Hc |].
    intros q g E. injection E as <- <-.
    split; [now symmetry |]. split; [exact Hn |]. split.
    + destruct Hc as [_ Hb]. rewrite Hb, Hk. unfold Dict.keys. now rewrite length_map.
    + intros n. rewrite Horder, first_seen_In. cbn. tauto.
  - destruct Honce as (Hn & Hc). split; [exact Hn |]. split; [exact Hc |]. discriminate.
  - destruct Honce as (Hn & Hc). split; [exact Hn |]. split; [exact Hc |]. discriminate.
Qed.

(** The two-page site with A and B, then B and C: three entries, three
    rows in the authors file, and one request for the bio page of B. *)
Lemma author_fetched_once_per_name_witness :
  let run := get_all_quotes_and_authors Example.site_abc 1 (start no_files) in
  exists quotes registry,
    snd run = Ok (quotes, registry)
    /\ Dict.keys registry = ["A"; "B"; "C"]
    /\ map author quotes = ["A"; "B"; "B"; "C"]
    /\ filter (String.eqb (Example.url "/author/B")) (requested (trace (fst run)))
       = [Example.url "/author/B"]
    /\ files (fst (main Example.site_abc 1 OUTPUT_QUOTES_PATH (start no_files)))
             OUTPUT_AUTHORS_PATH
       = File ("name,bio" ++ Csv.CRLF ++ "A,bio of A" ++ Csv.CRLF
               ++ "B,bio of B" ++ Csv.CRLF ++ "C,bio of C" ++ Csv.CRLF)%string
    /\ NoDup (bios_started (trace (fst run)))
    /\ Dict.keys registry = bios_started (trace (fst run)).
Proof.
  intros run. eexists. eexists.
  assert (Hr : snd run = Ok (_, _)) by (vm_compute; reflexivity).
  split; [exact Hr |].
  split; [vm_compute; reflexivity |]. split; [vm_compute; reflexivity |].
  split; [vm_compute; reflexivity |]. split; [vm_compute; reflexivity |].
  pose proof (author_fetched_once_per_name Example.site_abc 1 no_files
                (fst run) (snd run) (surjective_pairing run)) as (Hn & _ & Hk).
  split; [exact Hn |]. now apply (Hk _ _ Hr).
Defined.

Lemma row_of_fields (c1 c2 : Csv.cell) (cells : list Csv.cell) :
  Csv.row (c1 :: c2 :: cells)
  = (PyStr.join "," (map Csv.field (map Csv.cell_text (c1 :: c2 :: cells)))
     ++ Csv.CRLF)%string.
Proof. unfold Csv.row. cbn [map]. now destruct (Csv.cell_text c1). Qed.

(** [repr] of a string of plain characters: the string between single
    quotes, nothing escaped. *)
Lemma plain_char_repr (c : ascii) :
  plain_char c = true -> PyStr.repr_char PyStr.squote c = String c EmptyString.
Proof.
  unfold plain_char, PyStr.repr_char. cbv zeta. intros H.
  apply andb_prop in H as [H Hb]. apply andb_prop in H as [H Hq].
  apply andb_prop in H as [H1 H2].
  apply negb_true_iff in Hb, Hq. rewrite Hq, Hb. cbn [orb].
  apply Nat.leb_le in H1. apply Nat.ltb_lt in H2.
  repeat match goal with
         | |- context [?n =? ?k] => destruct (Nat.eqb_spec n k); [lia |]
         | |- context [?n <? ?k] => destruct (Nat.ltb_spec n k); try lia
         end; cbn [orb]; reflexivity.
Qed.

Lemma plain_repr_body (s : string) :
  plain s = true -> PyStr.repr_body PyStr.squote s = s.
Proof.
  unfold plain. induction s as [| c s IH]; cbn [list_ascii_of_string forallb PyStr.repr_body];
    [reflexivity |].
  intros H. apply andb_prop in H as [Hc Hs].
  now rewrite (plain_char_repr c Hc), IH.
Qed.

Lemma plain_no_squote (s : string) :
  plain s = true -> PyStr.contains PyStr.squote s = false.
Proof.
  unfold plain, PyStr.contains.
  induction s as [| c s IH]; cbn [list_ascii_of_string forallb existsb]; [reflexivity |].
  intros H. apply andb_prop in H as [Hc Hs]. rewrite (IH Hs), orb_false_r.
  unfold plain_char in Hc. apply andb_prop in Hc as [Hc _]. apply andb_prop in Hc as [_ Hq].
  apply negb_true_iff in Hq. now rewrite Ascii.eqb_sym.
Qed.

Lemma repr_plain (s : string) : plain s = true -> PyStr.repr s = single_quoted s.
Proof.
  intros H. unfold PyStr.repr, PyStr.repr_quote, single_quoted.
  rewrite (plain_no_squote s H). cbn [andb]. now rewrite (plain_repr_body s H).
Qed.

Lemma str_of_plain_list (l : list string) :
  forallb plain l = true ->
  PyStr.str_of_list l = ("[" ++ PyStr.join ", " (map single_quoted l) ++ "]")%string.
Proof.
  intros H. unfold PyStr.str_of_list. do 3 f_equal.
  apply map_ext_in. intros s Hs. apply repr_plain.
  rewrite forallb_forall in H. now apply H.
Qed.

(** C7.  [save_quotes_to_csv] leaves at its destination, whatever was
    there, the header row [text,author,tags] and then one row per quote
    in order; [save_authors_to_csv] likewise leaves the header
    [name,bio] and then one row, name and bio, per entry of the registry
    in order.  The third cell of a quote row is [str] of the tag list,
    the list literal: for tags of plain characters, each tag between
    single quotes, the tags separated by a comma and a space, the whole
    between brackets; a tag with a single quote and no double quote goes
    between double quotes, and quotes, backslashes and unprintable
    characters inside a tag are escaped as Python escapes them.  Every
    cell is written as a field of the dialect, and a reader of the
    dialect gets every field back. *)
Theorem serialiser_writes_header_then_rows
        (quotes : list Quote) (registry : Dict.t Author)
        (path : string) (w : world) :
  files w path <> Unwritable ->
  (exists w',
      save_quotes_to_csv quotes path w = (w', Ok tt)
      /\ files w' path = File (table (quotes_header :: map quote_row quotes)))
  /\ (exists w',
         save_authors_to_csv registry path w = (w', Ok tt)
         /\ files w' path
            = File (table (authors_header
                             :: map (fun entry => author_row (snd entry)) registry)))
  /\ table [] = EmptyString
  /\ (forall r rows, table (r :: rows) = (Csv.row r ++ table rows)%string)
  /\ Csv.row quotes_header = ("text,author,tags" ++ Csv.CRLF)%string
  /\ Csv.row authors_header = ("name,bio" ++ Csv.CRLF)%string
  /\ (forall q, map Csv.cell_text (quote_row q)
                = [text q; author q;
                   ("[" ++ PyStr.join ", " (map PyStr.repr (tags q)) ++ "]")%string])
  /\ (forall q, forallb plain (tags q) = true ->
                map Csv.cell_text (quote_row q)
                = [text q; author q;
                   ("[" ++ PyStr.join ", " (map single_quoted (tags q)) ++ "]")%string])
  /\ (let dq := String PyStr.dquote EmptyString in
      PyStr.repr "it's" = (dq ++ "it's" ++ dq)%string
      /\ PyStr.repr ("say " ++ dq ++ "hi" ++ dq) = ("'say " ++ dq ++ "hi" ++ dq ++ "'")%string
      /\ PyStr.repr ("a'b" ++ dq ++ "c") = ("'a\'b" ++ dq ++ "c'")%string
      /\ PyStr.repr "a\b" = "'a\\b'"
      /\ PyStr.repr (String Csv.LF "b") = "'\nb'"
      /\ PyStr.repr (String (ascii_of_nat 9) (String Csv.CR EmptyString)) = "'\t\r'"
      /\ PyStr.repr (String (ascii_of_nat 1) (String (ascii_of_nat 127) EmptyString))
         = "'\x01\x7f'"
      /\ PyStr.repr (String (ascii_of_nat 233) EmptyString)
         = String PyStr.squote (String (ascii_of_nat 233) "'")
      /\ PyStr.repr (String (ascii_of_nat 133)
                       (String (ascii_of_nat 160) (String (ascii_of_nat 173) EmptyString)))
         = "'\x85\xa0\xad'"
      /\ PyStr.repr EmptyString = "''")
  /\ (forall q, Csv.row (quote_row q)
                = (Csv.field (text q) ++ "," ++ Csv.field (author q) ++ ","
                   ++ Csv.field (PyStr.str_of_list (tags q)) ++ Csv.CRLF)%string)
  /\ (forall a, Csv.row (author_row a)
                = (Csv.field (name a) ++ "," ++ Csv.field (bio a) ++ Csv.CRLF)%string)
  /\ forall s, read_field (Csv.field s) = s.
Proof.
  intros H. split; [| split].
  - destruct (save_quotes_spec quotes path w H) as (w' & Hrun & _ & Hfs).
    exists w'. split; [exact Hrun |]. now rewrite Hfs, String.eqb_refl.
  - destruct (save_authors_spec registry path w H) as (w' & Hrun & _ & Hfs).
    exists w'. split; [exact Hrun |]. rewrite Hfs, String.eqb_refl.
    unfold Dict.values. now rewrite map_map.
  - split; [reflexivity |]. split; [apply table_cons |].
    split; [reflexivity |]. split; [reflexivity |]. split; [reflexivity |].
    split; [| split; [| split; [| split]]].
    + intros q Hq. unfold quote_row. cbn [map Csv.cell_text].
      now rewrite (str_of_plain_list _ Hq).
    + cbv zeta. repeat split; vm_compute; reflexivity.
    + intros q. unfold quote_row. rewrite row_of_fields.
      cbn [map Csv.cell_text PyStr.join String.concat].
      now rewrite !append_assoc.
    + intros a. unfold author_row. rewrite row_of_fields.
      cbn [map Csv.cell_text PyStr.join String.concat].
      now rewrite !append_assoc.
    + apply read_field_field.
Qed.

(** Three quotes over a stale file, tags with a single quote, a
    backslash and both quotes; three authors to a new file, one with a
    comma in the name, one with quotes in the bio, one with nothing. *)
Lemma serialiser_writes_header_then_rows_witness :
  let dq := String PyStr.dquote EmptyString in
  let quotes :=
    [ {| text := "q1"; author := "A"; tags := ["life"; "it's"] |};
      {| text := "He said " ++ dq ++ "hi" ++ dq ++ ", twice"; author := "B"; tags := [] |};
      {| text := "q3"; author := "C"; tags := ["back\slash"; "a'b" ++ dq ++ "c"] |} ]%string in
  let registry :=
    [ ("A", {| name := "A"; bio := "bio of A" |});
      ("B", {| name := "B, jr"; bio := "said " ++ dq ++ "no" ++ dq |});
      ("C", {| name := EmptyString; bio := EmptyString |}) ]%string in
  let w := start Example.fs_locked_authors in
  let saved_quotes := save_quotes_to_csv quotes OUTPUT_QUOTES_PATH w in
  let saved_authors := save_authors_to_csv registry "people.csv" w in
  files w OUTPUT_QUOTES_PATH = File "stale"
  /\ files w "people.csv" = Absent
  /\ snd saved_quotes = Ok tt
  /\ files (fst saved_quotes) OUTPUT_QUOTES_PATH
     = File (table (quotes_header :: map quote_row quotes))
  /\ table (quotes_header :: map quote_row quotes)
     = ("text,author,tags" ++ Csv.CRLF
        ++ "q1,A," ++ dq ++ "['life', " ++ dq ++ dq ++ "it's" ++ dq ++ dq ++ "]" ++ dq
        ++ Csv.CRLF
        ++ dq ++ "He said " ++ dq ++ dq ++ "hi" ++ dq ++ dq ++ ", twice" ++ dq ++ ",B,[]"
        ++ Csv.CRLF
        ++ "q3,C," ++ dq ++ "['back\\slash', 'a\'b" ++ dq ++ dq ++ "c']" ++ dq
        ++ Csv.CRLF)%string
  /\ snd saved_authors = Ok tt
  /\ files (fst saved_authors) "people.csv"
     = File ("name,bio" ++ Csv.CRLF
             ++ "A,bio of A" ++ Csv.CRLF
             ++ dq ++ "B, jr" ++ dq ++ "," ++ dq ++ "said " ++ dq ++ dq ++ "no"
             ++ dq ++ dq ++ dq ++ Csv.CRLF
             ++ "," ++ Csv.CRLF)%string.
Proof.
  intros dq quotes registry w saved_quotes saved_authors.
  assert (H : files w OUTPUT_QUOTES_PATH <> Unwritable) by (cbn; discriminate).
  assert (H' : files w "people.csv" <> Unwritable) by (cbn; discriminate).
  destruct (serialiser_writes_header_then_rows quotes registry OUTPUT_QUOTES_PATH w H)
    as ((w1 & Hrun1 & Hfile1) & _).
  destruct (serialiser_writes_header_then_rows quotes registry "people.csv" w H')
    as (_ & (w2 & Hrun2 & Hfile2) & _).
  subst saved_quotes saved_authors. rewrite Hrun1, Hrun2. cbn [fst snd].
  split; [reflexivity |]. split; [reflexivity |]. split; [reflexivity |].
  split; [exact Hfile1 |]. split; [vm_compute; reflexivity |]. split; [reflexivity |].
  rewrite Hfile2. vm_compute. reflexivity.
Defined.

(** ** The whole run *)

Lemma main_after_crawl web fuel path w w1 quotes registry :
  get_all_quotes_and_authors web fuel w = (w1, Ok (quotes, registry)) ->
  main web fuel path w
  = (save_quotes_to_csv quotes path ;;
     save_authors_to_csv registry OUTPUT_AUTHORS_PATH ;;
     logging_info SavedSuccessfully) w1.
Proof. intros H. unfold main at 1, bind at 1. now rewrite H. Qed.

Lemma main_crawl_raises web fuel path w w1 e :
  get_all_quotes_and_authors web fuel w = (w1, Raise e) ->
  main web fuel path w = (w1, Raise e).
Proof. intros H. unfold main, bind. now rewrite H. Qed.

Lemma main_quotes_unwritable web fuel path w w1 quotes registry :
  get_all_quotes_and_authors web fuel w = (w1, Ok (quotes, registry)) ->
  files w1 path = Unwritable ->
  main web fuel path w
  = ({| trace := trace w1 ++ [Info (SavingQuotes path)]; files := files w1 |},
     Raise (OSError path)).
Proof.
  intros H Hp. rewrite (main_after_crawl _ _ _ _ _ _ _ H). unfold bind at 1.
  now rewrite (save_unwritable save_quotes_to_csv quotes path _ _ w1 eq_refl Hp).
Qed.

Lemma main_quotes_written web fuel path w w1 quotes registry :
  get_all_quotes_and_authors web fuel w = (w1, Ok (quotes, registry)) ->
  files w1 path <> Unwritable ->
  exists w2,
    main web fuel path w
    = (save_authors_to_csv registry OUTPUT_AUTHORS_PATH ;;
       logging_info SavedSuccessfully) w2
    /\ forall p, files w2 p
                 = if String.eqb p path
                   then File (table (quotes_header :: map quote_row quotes))
                   else files w1 p.
Proof.
  intros H Hp. rewrite (main_after_crawl _ _ _ _ _ _ _ H).
  destruct (save_quotes_spec quotes path w1 Hp) as (w2 & Hrun & _ & Hfs).
  exists w2. split; [| exact Hfs]. unfold bind at 1. now rewrite Hrun.
Qed.

(** A run that returns has crawled, written the quotes, then the authors. *)
Lemma main_returns web fuel path w w' :
  main web fuel path w = (w', Ok tt) ->
  exists w1 quotes registry,
    get_all_quotes_and_authors web fuel w = (w1, Ok (quotes, registry))
    /\ files w' OUTPUT_AUTHORS_PATH
       = File (table (authors_header :: map author_row (Dict.values registry)))
    /\ (path <> OUTPUT_AUTHORS_PATH ->
        files w' path = File (table (quotes_header :: map quote_row quotes))).
Proof.
  intros Hmain.
  destruct (get_all_quotes_and_authors web fuel w) as [w1 [[quotes registry] | e |]] eqn:Hc.
  - exists w1, quotes, registry. split; [reflexivity |].
    destruct (files w1 path) eqn:Hp.
    1, 2: destruct (main_quotes_written _ _ path _ _ _ _ Hc) as (w2 & Hrun & Hfs);
      [congruence |]; rewrite Hrun in Hmain; clear Hrun;
      destruct (files w2 OUTPUT_AUTHORS_PATH) eqn:Ha.
    all: try (rewrite (main_quotes_unwritable _ _ _ _ _ _ _ Hc Hp) in Hmain; discriminate).
    all: try (unfold bind at 1 in Hmain;
              rewrite (save_unwritable save_authors_to_csv registry _ _ _ w2 eq_refl Ha)
                in Hmain; discriminate).
    all: destruct (save_authors_spec registry OUTPUT_AUTHORS_PATH w2) as (w3 & Hrun & _ & Hfa);
      [congruence |]; unfold bind at 1 in Hmain; rewrite Hrun in Hmain;
      unfold logging_info, emit in Hmain; injection Hmain as <-; cbn [files].
    all: split; [now rewrite Hfa, String.eqb_refl |].
    all: intros Hne; rewrite Hfa, Hfs; apply String.eqb_neq in Hne;
      now rewrite Hne, String.eqb_refl.
  - rewrite (main_crawl_raises _ _ _ _ _ _ Hc) in Hmain. discriminate.
  - unfold main, bind in Hmain. rewrite Hc in Hmain. discriminate.
Qed.

(** C8.  Nothing catches an exception.  The crawl writes no file; a
    crawl that raises makes the run raise the same exception there and
    then, both files unwritten; when the quotes file cannot be opened the
    run raises and the authors file is never written; when the quotes
    file is written and the authors file cannot be opened, the run
    raises, the quotes file stays as written and whole, and nothing else
    has changed. *)
Theorem first_error_aborts_run
        (web : site) (fuel : nat) (path : string)
        (w w1 : world) (r1 : result (list Quote * Dict.t Author)) :
  get_all_quotes_and_authors web fuel w = (w1, r1) ->
  files w1 = files w
  /\ (forall e, r1 = Raise e -> main web fuel path w = (w1, Raise e))
  /\ forall quotes registry,
       r1 = Ok (quotes, registry) ->
       (files w path = Unwritable ->
        exists w', main web fuel path w = (w', Raise (OSError path))
                   /\ files w' = files w)
       /\ (files w path <> Unwritable ->
           files w OUTPUT_AUTHORS_PATH = Unwritable ->
           exists w',
             main web fuel path w = (w', Raise (OSError OUTPUT_AUTHORS_PATH))
             /\ files w' path = File (table (quotes_header :: map quote_row quotes))
             /\ forall p, p <> path -> files w' p = files w p).
Proof.
  intros Hc.
  assert (Hfs : files w1 = files w).
  { pose proof (crawl_files web fuel w) as H. now rewrite Hc in H. }
  split; [exact Hfs |]. split.
  - intros e ->. now apply main_crawl_raises.
  - intros quotes registry ->. split.
    + intros Hp. rewrite <- Hfs in Hp. eexists. split.
      * apply (main_quotes_unwritable _ _ _ _ _ _ _ Hc Hp).
      * exact Hfs.
    + intros Hp Ha. rewrite <- Hfs in Hp.
      destruct (main_quotes_written _ _ path _ _ _ _ Hc Hp) as (w2 & Hrun & Hq).
      assert (Hne : String.eqb OUTPUT_AUTHORS_PATH path = false).
      { apply String.eqb_neq. intros E. rewrite <- E, Hfs in Hp. contradiction. }
      assert (Ha2 : files w2 OUTPUT_AUTHORS_PATH = Unwritable)
        by now rewrite Hq, Hne, Hfs.
      eexists. split.
      * rewrite Hrun. unfold bind at 1.
        now rewrite (save_unwritable save_authors_to_csv registry _ _ _ w2 eq_refl Ha2).
      * cbn [files]. split.
        -- now rewrite Hq, String.eqb_refl.
        -- intros p Hpne. apply String.eqb_neq in Hpne. now rewrite Hq, Hpne, Hfs.
Qed.

(** An author page that cannot be reached: the run raises and leaves the
    stale quotes file as it was.  A locked authors file: the run raises
    after the quotes file is written. *)
Lemma first_error_aborts_run_witness :
  let w := start Example.fs_locked_authors in
  let down := get_all_quotes_and_authors Example.site_down 1 w in
  let up := get_all_quotes_and_authors Example.site_abc 1 w in
  (snd down = Raise (RequestException ConnectionRefused)
   /\ main Example.site_down 1 OUTPUT_QUOTES_PATH w
      = (fst down, Raise (RequestException ConnectionRefused))
   /\ files (fst down) OUTPUT_QUOTES_PATH = File "stale")
  /\ exists quotes registry w',
      snd up = Ok (quotes, registry)
      /\ main Example.site_abc 1 OUTPUT_QUOTES_PATH w
         = (w', Raise (OSError OUTPUT_AUTHORS_PATH))
      /\ files w' OUTPUT_QUOTES_PATH
         = File (table (quotes_header :: map quote_row quotes))
      /\ files w' OUTPUT_AUTHORS_PATH = Unwritable.
Proof.
  intros w down up. split.
  - assert (Hr : snd down = Raise (RequestException ConnectionRefused))
      by (vm_compute; reflexivity).
    destruct (first_error_aborts_run Example.site_down 1 OUTPUT_QUOTES_PATH w
                (fst down) (snd down) (surjective_pairing down))
      as (Hfs & Hraise & _).
    split; [exact Hr |]. split.
    + now apply Hraise.
    + now rewrite Hfs.
  - eexists. eexists.
    assert (Hr : snd up = Ok (_, _)) by (vm_compute; reflexivity).
    destruct (first_error_aborts_run Example.site_abc 1 OUTPUT_QUOTES_PATH w
                (fst up) (snd up) (surjective_pairing up))
      as (_ & _ & Hok).
    destruct (Hok _ _ Hr) as (_ & Hlocked).
    destruct Hlocked as (w' & Hrun & Hq & Hrest); [cbn; discriminate | reflexivity |].
    exists w'. split; [exact Hr |]. split; [exact Hrun |]. split; [exact Hq |].
    rewrite Hrest; [reflexivity | discriminate].
Defined.

(** ** Walking the chain of listing pages *)

Lemma text_of_total (o : option node) : text_of o <> Spin.
Proof. destruct o; discriminate. Qed.

Lemma getitem_total (o : option node) (key : string) : getitem o key <> Spin.
Proof. destruct o as [[s | n c a l] |]; cbn; try discriminate. now destruct (attr key a). Qed.

Lemma parse_single_quote_total (b : node) : parse_single_quote b <> Spin.
Proof.
  unfold parse_single_quote.
  destruct (text_of (select_one sel_text b)) eqn:E1; try discriminate.
  - destruct (text_of (select_one sel_author b)) eqn:E2; try discriminate.
    now apply text_of_total in E2.
  - now apply text_of_total in E1.
Qed.

(** The pure steps of a body never spin. *)
Ltac no_spin :=
  match goal with
  | H : parse_single_quote _ = Spin |- _ => now apply parse_single_quote_total in H
  | H : getitem _ _ = Spin |- _ => now apply getitem_total in H
  | H : text_of _ = Spin |- _ => now apply text_of_total in H
  end.

(** The [for] loop ends: it returns or raises. *)
Lemma for_quote_soup_parsed web pages blocks au :
  hoare (fun w => pages_announced (trace w) = pages)
        (for_quote_soup web blocks au [])
        (post (fun st => parsed_in_order pages blocks (fst st))
              (fun _ o => o <> None)).
Proof.
  eapply hoare_weaken.
  - apply (for_quote_soup_rule web (fun done _ => parsed_in_order pages done)
             (fun _ o => o <> None) blocks) with (done := []); [| reflexivity].
    intros done b rest au' acc _ w [Hacc Hp]. unfold parsed_in_order.
    run_body; try no_spin; try discriminate.
    all: read_trace; rewrite !map_app; cbn [map]; split; auto; congruence.
  - intros w H. split; [reflexivity | exact H].
  - auto.
Qed.

Lemma requests_get_http web u status page w :
  web u = Http status page ->
  requests_get web u w = ({| trace := trace w ++ [Get u]; files := files w |}, Ok page).
Proof. intros H. unfold requests_get, bind, emit, ret. cbn. now rewrite H. Qed.

Lemma requests_get_failed web u k w :
  web u = Failed k ->
  requests_get web u w
  = ({| trace := trace w ++ [Get u]; files := files w |}, Raise (RequestException k)).
Proof. intros H. unfold requests_get, bind, emit, raise. cbn. now rewrite H. Qed.

Lemma while_body_step web a st href status page' w :
  getitem (Some a) "href" = Ok href ->
  web (BASE_URL ++ href)%string = Http status page' ->
  while_body web a st w
  = (page <- get_single_page_quotes web page' (authors st) ;;
     ret {| soup := page';
            all_quotes := all_quotes st ++ fst page;
            authors := snd page |})
      {| trace := (trace w ++ [Info (FetchingQuotesFromPage (BASE_URL ++ href)%string)])
                  ++ [Get (BASE_URL ++ href)%string];
         files := files w |}.
Proof.
  intros Hhref Hweb. unfold while_body. rewrite Hhref.
  unfold bind at 1, lift. unfold bind at 1, logging_info, emit. unfold bind at 1.
  now rewrite (requests_get_http _ _ _ _ _ Hweb).
Qed.






(** ** What the quote extractor returns *)

Lemma parse_single_quote_inv (b : node) (q : Quote) :
  parse_single_quote b = Ok q ->
  exists t a,
    select_one sel_text b = Some t
    /\ select_one sel_author b = Some a
    /\ q = {| text := get_text t; author := get_text a;
              tags := map get_text_strip (select sel_tag b) |}.
Proof.
  unfold parse_single_quote, text_of.
  destruct (select_one sel_text b) as [t |]; [| discriminate].
  destruct (select_one sel_author b) as [a |]; [| discriminate].
  intros [= <-]. now exists t, a.
Qed.

Lemma get_text_strip_single (e : node) (s : string) :
  strings e = [s] -> get_text_strip e = PyStr.strip s.
Proof.
  intros H. unfold get_text_strip. rewrite H. cbn.
  now destruct (PyStr.strip s).
Qed.

Lemma get_text_single (e : node) (s : string) :
  strings e = [s] -> get_text e = s.
Proof. intros H. unfold get_text. now rewrite H. Qed.

(** The claim as worded fails on a tag element with markup inside: the
    program joins the stripped pieces, the wording strips the whole. *)
Lemma tags_are_not_trimmed_texts :
  parse_single_quote Example.block_nested_tag
  = Ok {| text := "q"; author := "A"; tags := ["deepthoughts"] |}
  /\ map (fun e => PyStr.strip (get_text e)) (select sel_tag Example.block_nested_tag)
     = ["deep thoughts"]
  /\ ~ tags_are_trimmed_texts.
Proof.
  split; [vm_compute; reflexivity |]. split; [vm_compute; reflexivity |].
  intros H.
  specialize (H Example.block_nested_tag
                {| text := "q"; author := "A"; tags := ["deepthoughts"] |} eq_refl).
  vm_compute in H. discriminate H.
Qed.

(** C6, amended.  A quote block that parses yields as many tags as the
    block has tag elements, in document order; each tag is its element's
    strings, each stripped, the empty ones dropped, joined (so, for an
    element holding one string, that string stripped); text and author
    are the unstripped text of the first text and author elements (for an
    element holding one string, that very string).  A block with both
    elements does parse. *)
Theorem quote_fields_extracted (quote_soup : node) (quote : Quote) :
  parse_single_quote quote_soup = Ok quote ->
  length (tags quote) = length (select sel_tag quote_soup)
  /\ (forall i, nth_error (tags quote) i
                = option_map get_text_strip (nth_error (select sel_tag quote_soup) i))
  /\ (forall e, get_text_strip e
                = PyStr.join EmptyString
                    (filter (fun s => negb (PyStr.is_empty s))
                            (map PyStr.strip (strings e))))
  /\ (forall e s, strings e = [s] -> get_text_strip e = PyStr.strip s)
  /\ (exists t a,
         select_one sel_text quote_soup = Some t
         /\ select_one sel_author quote_soup = Some a
         /\ text quote = get_text t
         /\ author quote = get_text a)
  /\ (forall e s, strings e = [s] -> get_text e = s)
  /\ forall b t a,
      select_one sel_text b = Some t ->
      select_one sel_author b = Some a ->
      exists q, parse_single_quote b = Ok q.
Proof.
  intros H. destruct (parse_single_quote_inv _ _ H) as (t & a & Ht & Ha & ->).
  cbn [tags text author]. split; [apply length_map |]. split; [| split; [| split]].
  - intros i. apply nth_error_map.
  - reflexivity.
  - apply get_text_strip_single.
  - split; [now exists t, a |]. split; [apply get_text_single |].
    intros b t' a' Ht' Ha'. unfold parse_single_quote. rewrite Ht', Ha'. cbn.
    eexists. reflexivity.
Qed.

Lemma quote_fields_extracted_witness :
  let b := Page.quote_block " q1 " " A " "/author/A" [" life"; "love "] in
  exists q,
    parse_single_quote b = Ok q
    /\ q = {| text := " q1 "; author := " A "; tags := ["life"; "love"] |}
    /\ length (tags q) = length (select sel_tag b).
Proof.
  intros b. eexists.
  assert (H : parse_single_quote b = Ok _) by (vm_compute; reflexivity).
  split; [exact H |]. split; [reflexivity |].
  apply (quote_fields_extracted b _ H).
Defined.

(** ** A transport failure ends the run at the failing request *)

Lemma answered_info web tr m : answered web tr -> answered web (tr ++ [Info m]).
Proof. intros H u. rewrite requested_snoc, app_nil_r. apply H. Qed.

Lemma answered_get web tr u status page :
  answered web tr -> web u = Http status page -> answered web (tr ++ [Get u]).
Proof.
  intros H Hu v. rewrite requested_snoc, in_app_iff. intros [Hv | [<- | []]].
  - now apply H.
  - now exists status, page.
Qed.

Lemma text_of_raises (o : option node) (e : exn) :
  text_of o = Raise e -> e = AttributeError "text".
Proof. destruct o; cbn; congruence. Qed.

Lemma getitem_raises (o : option node) (key : string) (e : exn) :
  getitem o key = Raise e -> e = TypeError \/ e = KeyError key.
Proof.
  destruct o as [[s | n c a l] |]; cbn; try (intros [= <-]; now left).
  destruct (attr key a); [discriminate |]. intros [= <-]. now right.
Qed.

Lemma parse_single_quote_raises (b : node) (e : exn) :
  parse_single_quote b = Raise e -> e = AttributeError "text".
Proof.
  unfold parse_single_quote.
  destruct (text_of (select_one sel_text b)) eqn:E1; try discriminate.
  - destruct (text_of (select_one sel_author b)) eqn:E2; try discriminate.
    intros [= <-]. now apply text_of_raises in E2.
  - intros [= <-]. now apply text_of_raises in E1.
Qed.

(** Name the exception a pure step raised. *)
Ltac pure_exn :=
  repeat match goal with
         | H : parse_single_quote _ = Raise ?e |- _ =>
             apply parse_single_quote_raises in H; subst e
         | H : text_of _ = Raise ?e |- _ => apply text_of_raises in H; subst e
         | H : getitem _ _ = Raise ?e |- _ =>
             apply getitem_raises in H; destruct H as [-> | ->]
         end.

Ltac answer :=
  repeat first
    [ assumption
    | apply answered_info
    | eapply answered_get; [| eassumption] ].

Lemma for_quote_soup_answered web blocks au acc :
  hoare (fun w => answered web (trace w)) (for_quote_soup web blocks au acc)
        (post (fun _ w => answered web (trace w)) (failed_last web)).
Proof.
  apply (for_quote_soup_rule web (fun _ _ _ w => answered web (trace w)) _ blocks)
    with (done := []); [| reflexivity].
  intros done b rest au' acc' _ w Hw.
  run_body; try no_spin; pure_exn; cbn [failed_last trace]; try solve [answer].
  eexists. eexists. split; [reflexivity |]. split; [eassumption | answer].
Qed.

Lemma while_next_button_answered web fuel st :
  hoare (fun w => answered web (trace w)) (while_next_button web fuel st)
        (post (fun _ w => answered web (trace w)) (failed_last web)).
Proof.
  eapply hoare_weaken.
  - apply (while_next_button_rule web (fun _ w => answered web (trace w)) (failed_last web)).
    + intros a st' _ w Hw.
      run_body; try no_spin; pure_exn; try use_loop for_quote_soup_answered;
        cbn [failed_last trace] in *; try solve [answer]; try (apply Hloop; answer).
      eexists. eexists. split; [reflexivity |]. split; [eassumption | answer].
    + intros st' w Hw. exact Hw.
  - auto.
  - intros w [st' | e |]; cbn; tauto.
Qed.

Lemma crawl_answered web fuel :
  hoare (fun w => answered web (trace w)) (get_all_quotes_and_authors web fuel)
        (post (fun _ w => answered web (trace w)) (failed_last web)).
Proof.
  intros w Hw. unfold get_all_quotes_and_authors.
  run_body; try use_loop for_quote_soup_answered;
    try use_while while_next_button_answered; cbn [failed_last trace] in *.
  all: pure_exn.
  all: try (feed Hloop; [answer |]).
  all: try (feed Hwhile; [exact Hloop |]).
  all: try solve [answer].
  eexists. eexists. split; [reflexivity |]. split; [eassumption | answer].
Qed.

(** The claim as worded fails on a response with status 404: the body is
    handed over, and the run goes on to fail on the markup instead. *)
Lemma status_is_not_looked_at :
  completes (Example.site_404 (Example.url "/author/A")) = false
  /\ snd (requests_get Example.site_404 (Example.url "/author/A") (start no_files))
     = Ok Page.not_found
  /\ snd (main Example.site_404 1 OUTPUT_QUOTES_PATH (start no_files))
     = Raise (AttributeError "text")
  /\ classify (AttributeError "text") = MalformedPageError
  /\ ~ fetch_fails_when_incomplete.
Proof.
  split; [vm_compute; reflexivity |]. split; [vm_compute; reflexivity |].
  split; [vm_compute; reflexivity |]. split; [reflexivity |].
  intros H.
  destruct (H Example.site_404 (Example.url "/author/A") (start no_files) eq_refl)
    as (e & He & _).
  vm_compute in He. discriminate He.
Qed.

(** C3, amended.  A request that fails in transport (DNS, connection
    refused, timeout) raises a [RequestException] out of the crawl and
    out of the run at once: it is the last event of the trace, it is
    made once, and every request before it was answered.  A response,
    whatever its status, is not a failure: its body is handed over. *)
Theorem transport_failure_raises_at_once
        (web : site) (fuel : nat) (path : string) (fs : string -> fentry)
        (w1 : world) (r1 : result (list Quote * Dict.t Author)) :
  get_all_quotes_and_authors web fuel (start fs) = (w1, r1) ->
  (forall url k,
      In url (requested (trace w1)) -> web url = Failed k ->
      r1 = Raise (RequestException k)
      /\ main web fuel path (start fs) = (w1, Raise (RequestException k))
      /\ exists tr, trace w1 = tr ++ [Get url] /\ ~ In url (requested tr))
  /\ (forall k,
         r1 = Raise (RequestException k) ->
         classify (RequestException k) = NetworkError
         /\ exists tr url, trace w1 = tr ++ [Get url] /\ web url = Failed k)
  /\ (forall url k w,
         web url = Failed k ->
         requests_get web url w
         = ({| trace := trace w ++ [Get url]; files := files w |},
            Raise (RequestException k)))
  /\ forall url status body w,
      web url = Http status body -> snd (requests_get web url w) = Ok body.
Proof.
  intros Hrun.
  pose proof (crawl_answered web fuel (start fs)) as H. rewrite Hrun in H.
  cbn [fst snd] in H.
  assert (H0 : answered web (trace (start fs))) by (intros u []).
  specialize (H H0). clear H0.
  split; [| split; [| split]].
  - intros url k Hin Hfail.
    assert (Hno : forall tr, answered web tr -> ~ In url (requested tr)).
    { intros tr Htr Hu. destruct (Htr url Hu) as (s & p & E). congruence. }
    destruct r1 as [x | [k0 | | | |] |]; cbn [post failed_last] in H;
      try (exfalso; now apply (Hno _ H)).
    destruct H as (tr & u & Htr & Hu & Hans).
    rewrite Htr, requested_snoc, in_app_iff in Hin.
    destruct Hin as [Hin | [<- | []]]; [exfalso; now apply (Hno tr) |].
    assert (k0 = k) by congruence. subst k0.
    split; [reflexivity |]. split; [now apply main_crawl_raises |].
    exists tr. split; [exact Htr | now apply Hno].
  - intros k ->. cbn [post failed_last] in H.
    destruct H as (tr & u & Htr & Hu & _). split; [reflexivity |]. now exists tr, u.
  - intros url k w Hu. now apply requests_get_failed.
  - intros url status body w Hu. now rewrite (requests_get_http _ _ _ _ _ Hu).
Qed.

Lemma transport_failure_raises_at_once_witness :
  let run := get_all_quotes_and_authors Example.site_down 1 (start no_files) in
  In (Example.url "/author/A") (requested (trace (fst run)))
  /\ Example.site_down (Example.url "/author/A") = Failed ConnectionRefused
  /\ snd run = Raise (RequestException ConnectionRefused)
  /\ main Example.site_down 1 OUTPUT_QUOTES_PATH (start no_files)
     = (fst run, Raise (RequestException ConnectionRefused))
  /\ requested (trace (fst run)) = [BASE_URL; Example.url "/author/A"].
Proof.
  intros run.
  assert (Hin : In (Example.url "/author/A") (requested (trace (fst run))))
    by (vm_compute; auto).
  assert (Hfail : Example.site_down (Example.url "/author/A") = Failed ConnectionRefused)
    by (vm_compute; reflexivity).
  destruct (transport_failure_raises_at_once Example.site_down 1 OUTPUT_QUOTES_PATH
              no_files (fst run) (snd run) (surjective_pairing run))
    as (Hlast & _).
  destruct (Hlast _ _ Hin Hfail) as (Hr & Hmain & _).
  split; [exact Hin |]. split; [exact Hfail |]. split; [exact Hr |].
  split; [exact Hmain |]. vm_compute; reflexivity.
Defined.

(** ** Where requests and registry entries come from *)

Lemma fetched_snoc web tr e page : fetched web tr page -> fetched web (tr ++ [e]) page.
Proof.
  intros (v & s & Hv & E). exists v, s. split; [| exact E].
  rewrite requested_snoc, in_app_iff. now left.
Qed.

Lemma fetched_get web tr u status page :
  web u = Http status page -> fetched web (tr ++ [Get u]) page.
Proof.
  intros E. exists u, status. split; [| exact E].
  rewrite requested_snoc, in_app_iff. right. now left.
Qed.

Lemma linked_info web tr m : linked web tr -> linked web (tr ++ [Info m]).
Proof.
  intros H u. rewrite requested_snoc, app_nil_r. intros Hu.
  destruct (H u Hu) as [-> | (page & h & Hp & Hl & ->)]; [now left | right].
  exists page, h. split; [now apply fetched_snoc | now split].
Qed.

Lemma linked_get web tr u :
  linked web tr ->
  (u = BASE_URL
   \/ exists page h, fetched web tr page /\ link_on page h /\ u = (BASE_URL ++ h)%string) ->
  linked web (tr ++ [Get u]).
Proof.
  intros H Hu v. rewrite requested_snoc, in_app_iff. intros [Hv | [<- | []]].
  - destruct (H v Hv) as [-> | (page & h & Hp & Hl & ->)]; [now left | right].
    exists page, h. split; [now apply fetched_snoc | now split].
  - destruct Hu as [-> | (page & h & Hp & Hl & ->)]; [now left | right].
    exists page, h. split; [now apply fetched_snoc | now split].
Qed.

Lemma entry_from_snoc web tr e k a :
  entry_from web tr k a -> entry_from web (tr ++ [e]) k a.
Proof.
  intros (l & b & ae & h & s & p & t & d & Hf & H).
  exists l, b, ae, h, s, p, t, d. split; [now apply fetched_snoc | exact H].
Qed.

Lemma text_of_ok (o : option node) (s : string) :
  text_of o = Ok s -> exists t, o = Some t /\ s = get_text t.
Proof. destruct o as [t |]; cbn; [| discriminate]. intros [= <-]. now exists t. Qed.

Lemma for_body_traced web listing b au acc :
  In b (select sel_quote listing) ->
  hoare (traced web listing au) (for_body web b au acc)
        (post (fun st => traced web listing (snd st)) (fun w _ => linked web (trace w))).
Proof.
  intros Hb w (Hl & Hf & He).
  assert (Hget : forall q h, getitem (select_one sel_a b) "href" = Ok h ->
                 linked web
                   (((trace w ++ [Info (FetchingBioForNewAuthor q)])
                     ++ [Info (FetchingBioFrom (BASE_URL ++ h)%string)])
                    ++ [Get (BASE_URL ++ h)%string])).
  { intros q h Hh. apply linked_get; [now repeat apply linked_info |]. right.
    exists listing, h. split; [now repeat apply fetched_snoc |].
    split; [| reflexivity]. right. now exists b. }
  run_body; try no_spin; unfold traced; cbn [trace]; auto.
  split; [auto | split; [now repeat apply fetched_snoc |]].
  intros k x. rewrite set_new by assumption. rewrite in_app_iff.
  intros [Hold | [[= <- <-] | []]]; [now repeat apply entry_from_snoc; apply He |].
  repeat match goal with
         | H : parse_single_quote b = Ok _ |- _ =>
             destruct (parse_single_quote_inv _ _ H) as (t & ae & _ & Hae & ->); clear H
         | H : text_of _ = Ok _ |- _ =>
             let el := fresh "el" in
             destruct (text_of_ok _ _ H) as (el & ? & ->); clear H
         end.
  do 8 eexists.
  split; [repeat apply fetched_snoc; exact Hf |].
  split; [exact Hb |]. split; [exact Hae |]. split; [reflexivity |].
  split; [eassumption |]. split; [eassumption |].
  split; [eassumption |]. split; [eassumption |]. reflexivity.
Qed.

Lemma for_quote_soup_traced web listing au :
  hoare (traced web listing au) (for_quote_soup web (select sel_quote listing) au [])
        (post (fun st => traced web listing (snd st)) (fun w _ => linked web (trace w))).
Proof.
  apply (for_quote_soup_rule web (fun _ au _ => traced web listing au) _
           (select sel_quote listing)) with (done := []); [| reflexivity].
  intros done b rest au' acc' E. apply for_body_traced.
  rewrite E, in_app_iff. right. now left.
Qed.

Lemma while_body_traced web a st :
  select_one sel_next (soup st) = Some a ->
  hoare (traced web (soup st) (authors st)) (while_body web a st)
        (post (fun st' => traced web (soup st') (authors st'))
              (fun w _ => linked web (trace w))).
Proof.
  intros Hnext w (Hl & Hf & He).
  assert (Hget : forall h, getitem (Some a) "href" = Ok h ->
                 linked web
                   ((trace w ++ [Info (FetchingQuotesFromPage (BASE_URL ++ h)%string)])
                    ++ [Get (BASE_URL ++ h)%string])).
  { intros h Hh. apply linked_get; [now apply linked_info |]. right.
    exists (soup st), h. split; [now apply fetched_snoc |].
    split; [| reflexivity]. left. now rewrite Hnext. }
  run_body; try no_spin; cbn [trace]; auto.
  all: match goal with
       | H : for_quote_soup ?wb (select sel_quote ?page) ?au _ ?w0 = _ |- _ =>
           pose proof (for_quote_soup_traced wb page au w0) as Hloop;
           rewrite H in Hloop; cbn [fst snd post soup authors] in Hloop |- *;
           apply Hloop
       end.
  all: split; [now apply Hget | split; [eapply fetched_get; eassumption |]].
  all: intros k x Hin; now repeat apply entry_from_snoc; apply He.
Qed.

Lemma while_next_button_traced web fuel st :
  hoare (traced web (soup st) (authors st)) (while_next_button web fuel st)
        (post (fun st' => traced web (soup st') (authors st'))
              (fun w _ => linked web (trace w))).
Proof.
  eapply hoare_weaken.
  - apply (while_next_button_rule web (fun st => traced web (soup st) (authors st))
             (fun w _ => linked web (trace w))).
    + intros a st' Hnext. now apply while_body_traced.
    + intros st' w (Hl & _). exact Hl.
  - auto.
  - intros w [st' | e |]; cbn; tauto.
Qed.

Lemma crawl_traced web fuel :
  hoare (fun w => trace w = []) (get_all_quotes_and_authors web fuel)
        (post (fun r w => linked web (trace w)
                          /\ forall k a, In (k, a) (snd r) -> entry_from web (trace w) k a)
              (fun w _ => linked web (trace w))).
Proof.
  intros w Hw. unfold get_all_quotes_and_authors.
  assert (Hbase : linked web ((trace w ++ [Info StartingToScrape]) ++ [Get BASE_URL])).
  { apply linked_get; [| now left]. apply linked_info. rewrite Hw. intros u []. }
  run_body; cbn [trace]; auto.
  all: match goal with
       | H : for_quote_soup ?wb (select sel_quote ?page) ?au _ ?w0 = _ |- _ =>
           pose proof (for_quote_soup_traced wb page au w0) as Hloop;
           rewrite H in Hloop; cbn [fst snd post] in Hloop;
           feed Hloop;
           [split; [exact Hbase | split; [eapply fetched_get; eassumption | intros k x []]] |]
       end; auto.
  all: use_while while_next_button_traced; cbn [soup authors all_quotes] in Hwhile;
    specialize (Hwhile Hloop); auto.
  destruct Hwhile as (Hl & Hf & He). split; [now apply linked_info |].
  intros k x Hin. now apply entry_from_snoc, He.
Qed.

(** The claim as worded fails on the links of the site itself, which
    start with a slash: the program appends the link to the base URL and
    requests a URL with two slashes, where resolution gives one. *)
Lemma bio_not_fetched_at_resolved_url :
  Url.resolve BASE_URL "/author/A" = Some "https://quotes.toscrape.com/author/A"
  /\ requested (trace (fst (parse_author_bio Example.site_abc "/author/A" (start no_files))))
     = ["https://quotes.toscrape.com//author/A"]
  /\ requested (trace (fst (get_all_quotes_and_authors Example.site_abc 1 (start no_files))))
     = [ "https://quotes.toscrape.com/";
         "https://quotes.toscrape.com//author/A";
         "https://quotes.toscrape.com//author/B";
         "https://quotes.toscrape.com//page/2/";
         "https://quotes.toscrape.com//author/C" ]
  /\ ~ bio_fetched_at_resolved_url.
Proof.
  split; [vm_compute; reflexivity |]. split; [vm_compute; reflexivity |].
  split; [vm_compute; reflexivity |].
  intros H.
  specialize (H Example.site_abc "/author/A" _ (start no_files) eq_refl).
  vm_compute in H. discriminate H.
Qed.

(** C9.  Every registry entry is filed under the unstripped text of the
    author-name element of a quote block of a listing page, and holds
    the stripped title and description of the page behind that block's
    link; the authors file lists the [name] field, not the key; and the
    two differ on a site whose listing and bio page spell the author
    differently. *)
Theorem registry_key_is_listing_name
        (web : site) (fuel : nat) (fs : string -> fentry)
        (w : world) (quotes : list Quote) (registry : Dict.t Author) :
  get_all_quotes_and_authors web fuel (start fs) = (w, Ok (quotes, registry)) ->
  (forall key a, In (key, a) registry -> entry_from web (trace w) key a)
  /\ (forall a, map Csv.cell_text (author_row a) = [name a; bio a])
  /\ exists key a q,
      snd (get_all_quotes_and_authors Example.site_dumas 1 (start no_files))
      = Ok ([q], [(key, a)])
      /\ key = "Alexandre Dumas fils"
      /\ name a = "Alexandre Dumas-fils"
      /\ key <> name a
      /\ files (fst (main Example.site_dumas 1 OUTPUT_QUOTES_PATH (start no_files)))
               OUTPUT_AUTHORS_PATH
         = File ("name,bio" ++ Csv.CRLF
                 ++ "Alexandre Dumas-fils,born in Paris" ++ Csv.CRLF)%string.
Proof.
  intros Hrun. split; [| split].
  - pose proof (crawl_traced web fuel (start fs) eq_refl) as H. rewrite Hrun in H.
    apply H.
  - reflexivity.
  - do 3 eexists. split; [vm_compute; reflexivity |].
    split; [reflexivity |]. split; [reflexivity |].
    split; [discriminate | vm_compute; reflexivity].
Qed.

Lemma registry_key_is_listing_name_witness :
  let run := get_all_quotes_and_authors Example.site_dumas 1 (start no_files) in
  exists q a,
    snd run = Ok ([q], [("Alexandre Dumas fils", a)])
    /\ name a = "Alexandre Dumas-fils"
    /\ entry_from Example.site_dumas (trace (fst run)) "Alexandre Dumas fils" a.
Proof.
  intros run. do 2 eexists.
  assert (Hr : snd run = Ok ([_], [("Alexandre Dumas fils", _)]))
    by (vm_compute; reflexivity).
  split; [exact Hr |]. split; [reflexivity |].
  assert (Hrun : run = (fst run, Ok ([_], [("Alexandre Dumas fils", _)])))
    by (rewrite <- Hr; apply surjective_pairing).
  destruct (registry_key_is_listing_name Example.site_dumas 1 no_files _ _ _ Hrun)
    as (Hentries & _).
  apply Hentries. now left.
Defined.

(** ** A missing element stops the run *)

Lemma bios_sound_other web tr e :
  (forall u, e <> Info (FetchingBioFrom u)) ->
  bios_sound web tr -> bios_sound web (tr ++ [e]).
Proof.
  intros He H u. rewrite bios_announced_snoc.
  destruct e as [v | []]; rewrite ?app_nil_r; auto.
  now contradiction (He url).
Qed.

Lemma bios_sound_bio web tr u status page :
  bios_sound web tr -> web u = Http status page -> bio_ok page = true ->
  bios_sound web (tr ++ [Info (FetchingBioFrom u)]).
Proof.
  intros H Hu Hok v. rewrite bios_announced_snoc, in_app_iff.
  intros [Hv | [<- | []]]; [now apply H | now exists status, page].
Qed.

Lemma block_ok_parsed (b : node) (q : Quote) (h : string) :
  parse_single_quote b = Ok q ->
  getitem (select_one sel_a b) "href" = Ok h ->
  block_ok b = true.
Proof.
  intros Hq Hh. destruct (parse_single_quote_inv _ _ Hq) as (t & a & Ht & Ha & _).
  unfold block_ok. now rewrite Ht, Ha, Hh.
Qed.

Lemma for_quote_soup_walked web pages blocks au :
  hoare (walked web pages []) (for_quote_soup web blocks au [])
        (post (fun _ => walked web pages blocks) (fun _ _ => True)).
Proof.
  apply (for_quote_soup_rule web (fun done _ _ => walked web pages done)
           (fun _ _ => True) blocks) with (done := []); [| reflexivity].
  intros done b rest au' acc _ w (Hd & Hb & Hp). unfold walked.
  run_body; auto; read_trace.
  all: (split; [apply Forall_app; split; [exact Hd |];
                constructor; [eapply block_ok_parsed; eassumption | constructor] |]).
  all: split; auto.
  apply bios_sound_other; [discriminate |].
  eapply bios_sound_bio; [| eassumption |].
  - apply bios_sound_other; [discriminate | exact Hb].
  - unfold bio_ok.
    repeat match goal with H : text_of _ = Ok _ |- _ => rewrite H; clear H end.
    reflexivity.
Qed.

Lemma pages_sound_snoc web urls u status page :
  pages_sound web urls ->
  web u = Http status page ->
  Forall (fun b => block_ok b = true) (select sel_quote page) ->
  pages_sound web (urls ++ [u]).
Proof.
  intros H Hu Hok v s p Hv Hweb. apply in_app_iff in Hv as [Hv | [<- | []]].
  - now apply (H v s p).
  - rewrite Hu in Hweb. now injection Hweb as _ <-.
Qed.

Lemma while_body_sound web a st :
  hoare (all_sound web) (while_body web a st)
        (post (fun _ => all_sound web) (fun _ _ => True)).
Proof.
  intros w (Hp & Hb). run_body; auto.
  match goal with
  | H : for_quote_soup ?wb ?bl ?au _ ?w0 = _ |- _ =>
      pose proof (for_quote_soup_walked wb (pages_announced (trace w0)) bl au w0) as Hloop;
      rewrite H in Hloop; cbn [fst snd post] in Hloop |- *
  end.
  destruct Hloop as (Hok & Hb' & Hpages).
  { split; [constructor | split; [| reflexivity]].
    repeat (apply bios_sound_other; [discriminate |]). exact Hb. }
  split; [| exact Hb']. rewrite Hpages. read_trace.
  eapply (pages_sound_snoc web (BASE_URL :: pages_announced (trace w))); eauto.
Qed.

Lemma while_next_button_sound web fuel st :
  hoare (all_sound web) (while_next_button web fuel st)
        (post (fun _ => all_sound web) (fun _ _ => True)).
Proof.
  eapply hoare_weaken.
  - apply (while_next_button_rule web (fun _ => all_sound web) (fun _ _ => True)).
    + intros a st' _. apply while_body_sound.
    + auto.
  - auto.
  - intros w [st' | e |]; cbn; tauto.
Qed.

Lemma crawl_sound web fuel :
  hoare (fun w => trace w = []) (get_all_quotes_and_authors web fuel)
        (post (fun _ => all_sound web) (fun _ _ => True)).
Proof.
  intros w Hw. unfold get_all_quotes_and_authors. run_body; auto.
  match goal with
  | H : for_quote_soup ?wb ?bl ?au _ ?w0 = _ |- _ =>
      pose proof (for_quote_soup_walked wb [] bl au w0) as Hloop;
      rewrite H in Hloop; cbn [fst snd post] in Hloop
  end.
  destruct Hloop as (Hok & Hb & Hpages).
  { split; [constructor | split; [| now read_trace; rewrite Hw]].
    cbn [trace]. rewrite Hw. intros u []. }
  use_while while_next_button_sound.
  destruct Hwhile as (Hp' & Hb').
  { split; [| exact Hb]. rewrite Hpages.
    apply (pages_sound_snoc web [] BASE_URL status content); auto.
    intros u s p []. }
  split.
  - read_trace. exact Hp'.
  - apply bios_sound_other; [discriminate | exact Hb'].
Qed.

(** The claim as worded fails on a block whose link to the author's
    page is missing while a tag link is there: the first [a] of the block
    is a tag link, the program takes it for the author link, and, the
    author being known already, the run returns with the quote kept. *)
Lemma tag_link_stands_in_for_author_link :
  has_required_elements Example.block_tag_link_only = false
  /\ getitem (select_one sel_a Example.block_tag_link_only) "href" = Ok "/tag/life/"
  /\ snd (main Example.site_no_about 1 OUTPUT_QUOTES_PATH (start no_files)) = Ok tt
  /\ files (fst (main Example.site_no_about 1 OUTPUT_QUOTES_PATH (start no_files)))
           OUTPUT_QUOTES_PATH
     = File ("text,author,tags" ++ Csv.CRLF ++ "q1,A,['life']" ++ Csv.CRLF
             ++ "q2,A,['life']" ++ Csv.CRLF)%string
  /\ ~ missing_element_always_raises.
Proof.
  split; [vm_compute; reflexivity |]. split; [vm_compute; reflexivity |].
  split; [vm_compute; reflexivity |]. split; [vm_compute; reflexivity |].
  intros H.
  destruct (H Example.site_no_about Example.block_tag_link_only
              [("A", {| name := "A"; bio := "bio of A" |})] [] (start no_files) eq_refl)
    as (e & He & _).
  vm_compute in He. discriminate He.
Qed.

Lemma for_body_unsound web b au acc w :
  block_ok b = false ->
  exists e, for_body web b au acc w = (w, Raise e)
            /\ classify e = MalformedPageError.
Proof.
  unfold block_ok, for_body, parse_single_quote, bind, lift. intros H.
  destruct (text_of (select_one sel_text b)) eqn:E1.
  2: { apply text_of_raises in E1 as ->. eexists. split; reflexivity. }
  2: now apply text_of_total in E1.
  destruct (text_of (select_one sel_author b)) eqn:E2.
  2: { apply text_of_raises in E2 as ->. eexists. split; reflexivity. }
  2: now apply text_of_total in E2.
  destruct (getitem (select_one sel_a b) "href") eqn:E3; [discriminate | |].
  - apply getitem_raises in E3 as [-> | ->]; eexists; split; reflexivity.
  - now apply getitem_total in E3.
Qed.

Lemma parse_author_bio_unsound web h status page w :
  web (BASE_URL ++ h)%string = Http status page ->
  bio_ok page = false ->
  exists e, snd (parse_author_bio web h w) = Raise e
            /\ classify e = MalformedPageError.
Proof.
  intros Hweb H. unfold parse_author_bio, bind, logging_info, emit. cbn [fst snd].
  rewrite (requests_get_http _ _ _ _ _ Hweb). unfold lift, bio_ok in *.
  destruct (text_of (select_one sel_author_title page)) eqn:E1.
  2: { apply text_of_raises in E1 as ->. eexists. split; reflexivity. }
  2: now apply text_of_total in E1.
  destruct (text_of (select_one sel_author_description page)) eqn:E2; [discriminate | |].
  - apply text_of_raises in E2 as ->. eexists. split; reflexivity.
  - now apply text_of_total in E2.
Qed.

(** C4, amended.  A quote block without its text element, without its
    author-name element, or whose first [a] (whatever that link is) is
    absent or has no [href], makes the walk raise an exception of the
    malformed-page kind on the spot, the blocks after it unvisited; a bio
    page without its title or its description makes [parse_author_bio]
    raise likewise; the exception leaves the crawl and the run as it is,
    no file written; and a run that returns has met sound blocks and
    sound bio pages only: nothing is skipped. *)
Theorem missing_element_stops_the_run
        (web : site) (fuel : nat) (path : string) (fs : string -> fentry) :
  (forall b rest au acc w,
      block_ok b = false ->
      exists e, for_quote_soup web (b :: rest) au acc w = (w, Raise e)
                /\ classify e = MalformedPageError)
  /\ (forall h status page w,
         web (BASE_URL ++ h)%string = Http status page ->
         bio_ok page = false ->
         exists e, snd (parse_author_bio web h w) = Raise e
                   /\ classify e = MalformedPageError)
  /\ (forall w1 e,
         get_all_quotes_and_authors web fuel (start fs) = (w1, Raise e) ->
         main web fuel path (start fs) = (w1, Raise e) /\ files w1 = fs)
  /\ forall w',
      main web fuel path (start fs) = (w', Ok tt) ->
      exists w1 quotes registry,
        get_all_quotes_and_authors web fuel (start fs) = (w1, Ok (quotes, registry))
        /\ pages_sound web (BASE_URL :: pages_announced (trace w1))
        /\ bios_sound web (trace w1).
Proof.
  split; [| split; [| split]].
  - intros b rest au acc w H.
    destruct (for_body_unsound web b au acc w H) as (e & He & Hc).
    exists e. split; [| exact Hc]. cbn [for_quote_soup]. unfold bind. now rewrite He.
  - apply parse_author_bio_unsound.
  - intros w1 e Hrun. split; [now apply main_crawl_raises |].
    pose proof (crawl_files web fuel (start fs)) as H. now rewrite Hrun in H.
  - intros w' Hmain.
    destruct (main_returns _ _ _ _ _ Hmain) as (w1 & quotes & registry & Hrun & _).
    exists w1, quotes, registry. split; [exact Hrun |].
    pose proof (crawl_sound web fuel (start fs) eq_refl) as H. rewrite Hrun in H.
    exact H.
Qed.

(** A page whose second block has no text element: the first author is
    fetched, the run raises at the second block, the third block is never
    visited, no file is written. *)
Lemma missing_element_stops_the_run_witness :
  let run := get_all_quotes_and_authors Example.site_broken 1
               (start Example.fs_locked_authors) in
  block_ok Example.block_no_text = false
  /\ snd run = Raise (AttributeError "text")
  /\ requested (trace (fst run)) = [BASE_URL; Example.url "/author/A"]
  /\ main Example.site_broken 1 OUTPUT_QUOTES_PATH (start Example.fs_locked_authors)
     = (fst run, Raise (AttributeError "text"))
  /\ files (fst run) = Example.fs_locked_authors.
Proof.
  intros run.
  assert (Hr : snd run = Raise (AttributeError "text")) by (vm_compute; reflexivity).
  split; [vm_compute; reflexivity |]. split; [exact Hr |].
  split; [vm_compute; reflexivity |].
  destruct (missing_element_stops_the_run Example.site_broken 1 OUTPUT_QUOTES_PATH
              Example.fs_locked_authors) as (_ & _ & Hraise & _).
  apply Hraise. rewrite <- Hr. apply surjective_pairing.
Defined.

(** With no cycle detection, a next link that leads back to the page it
    is on keeps the loop going for as long as there is fuel. *)
Remark while_next_button_spins_on_a_cycle (web : site) (status : nat) (page a : node)
       (href : string) :
  select_one sel_next page = Some a ->
  getitem (Some a) "href" = Ok href ->
  web (BASE_URL ++ href)%string = Http status page ->
  forall fuel st w,
    soup st = page ->
    is_ok (snd (while_next_button web fuel st w)) = false.
Proof.
  intros Hnext Hhref Hweb fuel.
  induction fuel as [| fuel IH]; intros st w Hst; cbn [while_next_button];
    rewrite Hst, Hnext; [reflexivity |].
  unfold bind at 1. rewrite (while_body_step _ _ _ _ _ _ _ Hhref Hweb).
  unfold bind at 1.
  destruct (get_single_page_quotes web page (authors st) _) as [w1 [pg | e |]];
    cbn [ret fst snd]; try reflexivity.
  now apply IH.
Qed.

(** ** The crawl reads nothing of the world *)

Lemma extend_nil (w : world) : extend w [] = w.
Proof. destruct w. unfold extend. cbn. now rewrite app_nil_r. Qed.

Lemma extend_extend (w : world) (t1 t2 : list event) :
  extend (extend w t1) t2 = extend w (t1 ++ t2).
Proof. unfold extend. cbn. now rewrite app_assoc. Qed.

Lemma uniform_ret {A} (a : A) : uniform (ret a).
Proof. exists [], (Ok a). intros w. unfold ret. now rewrite extend_nil. Qed.

Lemma uniform_lift {A} (r : result A) : uniform (lift r).
Proof. exists [], r. intros w. unfold lift. now rewrite extend_nil. Qed.

Lemma uniform_raise {A} (e : exn) : uniform (@raise A e).
Proof. exists [], (Raise e). intros w. unfold raise. now rewrite extend_nil. Qed.

Lemma uniform_spin {A} : uniform (@spin A).
Proof. exists [], Spin. intros w. unfold spin. now rewrite extend_nil. Qed.

Lemma uniform_emit (e : event) : uniform (emit e).
Proof. exists [e], (Ok tt). reflexivity. Qed.

Lemma uniform_bind {A B} (m : M A) (k : A -> M B) :
  uniform m -> (forall a, uniform (k a)) -> uniform (bind m k).
Proof.
  intros (tr & r & Hm) Hk. destruct r as [a | e |].
  - destruct (Hk a) as (tr' & r' & Hka). exists (tr ++ tr'), r'. intros w.
    unfold bind. now rewrite Hm, Hka, extend_extend.
  - exists tr, (Raise e). intros w. unfold bind. now rewrite Hm.
  - exists tr, Spin. intros w. unfold bind. now rewrite Hm.
Qed.

Lemma uniform_requests_get web u : uniform (requests_get web u).
Proof.
  unfold requests_get. apply uniform_bind; [apply uniform_emit |].
  intros _. destruct (web u); [apply uniform_raise | apply uniform_ret].
Qed.

Lemma uniform_parse_author_bio web h : uniform (parse_author_bio web h).
Proof.
  unfold parse_author_bio, logging_info.
  repeat (apply uniform_bind;
          [first [apply uniform_emit | apply uniform_requests_get | apply uniform_lift] |];
          intros ?).
  apply uniform_ret.
Qed.

Lemma uniform_for_body web b au acc : uniform (for_body web b au acc).
Proof.
  unfold for_body, logging_info.
  apply uniform_bind; [apply uniform_lift | intros q].
  apply uniform_bind; [apply uniform_lift | intros h].
  apply uniform_bind; [| intros ?; apply uniform_ret].
  destruct (Dict.contains (author q) au); [apply uniform_ret |].
  apply uniform_bind; [apply uniform_emit | intros _].
  apply uniform_bind; [apply uniform_parse_author_bio | intros ?; apply uniform_ret].
Qed.

Lemma uniform_for_quote_soup web blocks :
  forall au acc, uniform (for_quote_soup web blocks au acc).
Proof.
  induction blocks as [| b blocks IH]; intros au acc; cbn.
  - apply uniform_ret.
  - apply uniform_bind; [apply uniform_for_body | intros st; apply IH].
Qed.

Lemma uniform_while_body web a st : uniform (while_body web a st).
Proof.
  unfold while_body, logging_info, get_single_page_quotes.
  apply uniform_bind; [apply uniform_lift | intros h].
  apply uniform_bind; [apply uniform_emit | intros _].
  apply uniform_bind; [apply uniform_requests_get | intros p].
  apply uniform_bind; [apply uniform_for_quote_soup | intros ?; apply uniform_ret].
Qed.

Lemma uniform_while_next_button web fuel :
  forall st, uniform (while_next_button web fuel st).
Proof.
  induction fuel as [| fuel IH]; intros st; cbn;
    destruct (select_one sel_next (soup st)); try apply uniform_ret.
  - apply uniform_spin.
  - apply uniform_bind; [apply uniform_while_body | exact IH].
Qed.

(** X1.  The crawl reads nothing of the world it starts in: whatever the
    files and whatever was logged before, it adds the same events, ends
    the same way with the same quotes and registry, and leaves every file
    as it was. *)
Theorem crawl_reads_nothing_of_the_world (web : site) (fuel : nat) :
  exists (tr : list event) (r : result (list Quote * Dict.t Author)),
    forall w : world,
      get_all_quotes_and_authors web fuel w
      = ({| trace := trace w ++ tr; files := files w |}, r).
Proof.
  change (uniform (get_all_quotes_and_authors web fuel)).
  unfold get_all_quotes_and_authors, logging_info, get_single_page_quotes.
  apply uniform_bind; [apply uniform_emit | intros _].
  apply uniform_bind; [apply uniform_requests_get | intros p].
  apply uniform_bind; [apply uniform_for_quote_soup | intros pg].
  apply uniform_bind; [apply uniform_while_next_button | intros st].
  apply uniform_bind; [apply uniform_emit | intros _; apply uniform_ret].
Qed.

(** ** No cycle detection *)

(** One turn of the [while] loop: it raises, or it has gone on to the
    page behind the next link; it never spins. *)
Lemma while_body_outcome web a st w :
  match snd (while_body web a st w) with
  | Ok st' =>
      exists href status,
        getitem (Some a) "href" = Ok href
        /\ web (BASE_URL ++ href)%string = Http status (soup st')
        /\ pages_announced (trace (fst (while_body web a st w)))
           = pages_announced (trace w) ++ [(BASE_URL ++ href)%string]
  | Raise _ => True
  | Spin => False
  end.
Proof.
  run_body; try no_spin; auto.
  all: match goal with
       | H : for_quote_soup ?wb ?bl ?au [] ?w0 = _ |- _ =>
           pose proof (for_quote_soup_parsed wb (pages_announced (trace w0)) bl au w0
                         eq_refl) as Hpage;
           rewrite H in Hpage; cbn [fst snd post soup] in Hpage |- *
       end.
  - destruct Hpage as [_ Hp]. do 2 eexists. split; [reflexivity |].
    split; [eassumption |]. rewrite Hp. now read_trace.
  - now apply Hpage.
Qed.

Lemma while_next_button_endless web (S : node -> Prop) :
  (forall p, S p -> select_one sel_next p <> None) ->
  (forall p href status p',
      S p -> getitem (select_one sel_next p) "href" = Ok href ->
      web (BASE_URL ++ href)%string = Http status p' -> S p') ->
  forall fuel st w,
    S (soup st) ->
    is_ok (snd (while_next_button web fuel st w)) = false
    /\ (snd (while_next_button web fuel st w) = Spin ->
        length (pages_announced (trace (fst (while_next_button web fuel st w))))
        = length (pages_announced (trace w)) + fuel).
Proof.
  intros Hnext Hclosed fuel.
  induction fuel as [| fuel IH]; intros st w HS; cbn [while_next_button];
    destruct (select_one sel_next (soup st)) as [a |] eqn:Ea;
    try (now contradiction (Hnext _ HS)).
  - cbn. split; [reflexivity | lia].
  - unfold bind. pose proof (while_body_outcome web a st w) as Hbody.
    destruct (while_body web a st w) as [w1 [st' | e |]]; cbn [fst snd] in *.
    + destruct Hbody as (href & status & Eh & Ew & Hp).
      destruct (IH st' w1) as [Hok Hspin].
      { apply (Hclosed (soup st) href status (soup st') HS); [now rewrite Ea | exact Ew]. }
      split; [exact Hok |]. intros E. rewrite (Hspin E), Hp, length_app. cbn. lia.
    + split; [reflexivity | discriminate].
    + contradiction.
Qed.

(** X2.  There is no cycle detection.  On a site where every listing
    page reachable from the base page has a next link (so pagination runs
    in a cycle), the crawl never returns: it raises, or, for every number
    of turns granted, it is still in the loop having gone on to that many
    pages. *)
Theorem crawl_never_leaves_a_cycle
        (web : site) (S : node -> Prop) (status : nat) (page0 : node) :
  web BASE_URL = Http status page0 ->
  S page0 ->
  (forall p, S p -> select_one sel_next p <> None) ->
  (forall p href st p',
      S p -> getitem (select_one sel_next p) "href" = Ok href ->
      web (BASE_URL ++ href)%string = Http st p' -> S p') ->
  forall fuel w,
    is_ok (snd (get_all_quotes_and_authors web fuel w)) = false
    /\ (snd (get_all_quotes_and_authors web fuel w) = Spin ->
        length (pages_announced (trace (fst (get_all_quotes_and_authors web fuel w))))
        = length (pages_announced (trace w)) + fuel).
Proof.
  intros Hweb HS Hnext Hclosed fuel w.
  unfold get_all_quotes_and_authors, bind, logging_info, emit, get_single_page_quotes.
  cbn [fst snd]. rewrite (requests_get_http _ _ _ _ _ Hweb).
  match goal with |- context [for_quote_soup web ?bl ?au [] ?w0] =>
    pose proof (for_quote_soup_parsed web (pages_announced (trace w0)) bl au w0 eq_refl)
      as Hpage;
    destruct (for_quote_soup web bl au [] w0) as [w1 [[qs au'] | e |]]
  end; cbn [fst snd post] in *.
  2: split; [reflexivity | discriminate].
  2: now contradiction Hpage.
  destruct Hpage as [_ Hp].
  match goal with |- context [while_next_button web fuel ?st1 w1] =>
    destruct (while_next_button_endless web S Hnext Hclosed fuel st1 w1 HS)
      as [Hok Hspin];
    destruct (while_next_button web fuel st1 w1) as [w2 [st' | e |]]
  end; cbn [fst snd is_ok] in *; try discriminate.
  - split; [reflexivity | discriminate].
  - split; [reflexivity |]. intros _. rewrite (Hspin eq_refl), Hp. now read_trace.
Qed.

Lemma crawl_never_leaves_a_cycle_witness :
  let run := get_all_quotes_and_authors Sample.site_cycle 3 (start no_files) in
  Sample.site_cycle BASE_URL = Http 200 Sample.page_a
  /\ is_ok (snd run) = false
  /\ snd run = Spin
  /\ length (pages_announced (trace (fst run))) = 3.
Proof.
  intros run.
  assert (Hweb : Sample.site_cycle BASE_URL = Http 200 Sample.page_a) by reflexivity.
  destruct (crawl_never_leaves_a_cycle Sample.site_cycle Sample.on_cycle 200
              Sample.page_a Hweb (or_introl eq_refl)) with (fuel := 3) (w := start no_files)
    as [Hok Hspin].
  - intros p [-> | ->]; vm_compute; discriminate.
  - intros p href st p' [-> | ->] Hh Hw; vm_compute in Hh; injection Hh as <-;
      vm_compute in Hw; injection Hw as _ <-; [right | left]; reflexivity.
  - assert (Hr : snd run = Spin) by (vm_compute; reflexivity).
    split; [exact Hweb |]. split; [exact Hok |]. split; [exact Hr |].
    exact (Hspin Hr).
Defined.

(** ** What is stripped stays stripped *)

Lemma lstrip_clean (s : string) :
  match PyStr.lstrip s with
  | EmptyString => True
  | String c _ => PyStr.isspace c = false
  end.
Proof.
  induction s as [| c s IH]; cbn; [exact I |].
  destruct (PyStr.isspace c) eqn:E; [exact IH | exact E].
Qed.

Lemma rstrip_head (c : ascii) (s : string) :
  PyStr.isspace c = false ->
  PyStr.rstrip (String c s) = String c (PyStr.rstrip s).
Proof. intros E. cbn. rewrite E. now destruct (PyStr.rstrip s). Qed.

Lemma rstrip_idem (s : string) : PyStr.rstrip (PyStr.rstrip s) = PyStr.rstrip s.
Proof.
  induction s as [| c s IH]; [reflexivity |]. cbn [PyStr.rstrip].
  destruct (PyStr.rstrip s) as [| c' r] eqn:E.
  - destruct (PyStr.isspace c) eqn:Ec; [reflexivity |]. cbn. now rewrite Ec.
  - cbn [PyStr.rstrip] in *. now rewrite IH.
Qed.

Lemma strip_idem (s : string) : PyStr.strip (PyStr.strip s) = PyStr.strip s.
Proof.
  unfold PyStr.strip. pose proof (lstrip_clean s) as H.
  destruct (PyStr.lstrip s) as [| c t]; [reflexivity |].
  rewrite (rstrip_head c t H). cbn [PyStr.lstrip]. rewrite H.
  rewrite <- (rstrip_head c t H). apply rstrip_idem.
Qed.

Lemma stripped_head (s : string) :
  PyStr.strip s = s ->
  match s with
  | EmptyString => True
  | String c _ => PyStr.isspace c = false
  end.
Proof.
  intros H. rewrite <- H. unfold PyStr.strip. pose proof (lstrip_clean s) as Hc.
  destruct (PyStr.lstrip s) as [| c t]; [exact I |]. now rewrite (rstrip_head c t Hc).
Qed.

Lemma stripped_rstrip (s : string) : PyStr.strip s = s -> PyStr.rstrip s = s.
Proof. intros H. rewrite <- H at 1. unfold PyStr.strip. rewrite rstrip_idem. exact H. Qed.

Lemma rstrip_app_keep (a b : string) :
  b <> EmptyString -> PyStr.rstrip b = b -> PyStr.rstrip (a ++ b) = (a ++ b)%string.
Proof.
  intros Hb H. induction a as [| c a IH]; [exact H |].
  cbn [append PyStr.rstrip]. rewrite IH.
  destruct (a ++ b)%string eqn:E; [| reflexivity].
  destruct a; cbn in E; [contradiction | discriminate].
Qed.

Lemma stripped_append (a b : string) :
  a <> EmptyString -> PyStr.strip a = a ->
  b <> EmptyString -> PyStr.strip b = b ->
  PyStr.strip (a ++ b) = (a ++ b)%string.
Proof.
  intros Ha Sa Hb Sb. pose proof (stripped_head a Sa) as Hc.
  destruct a as [| c a]; [contradiction |].
  unfold PyStr.strip. cbn [append PyStr.lstrip]. rewrite Hc.
  change (String c (a ++ b)) with (String c a ++ b)%string.
  apply rstrip_app_keep; [exact Hb | now apply stripped_rstrip].
Qed.

Lemma stripped_join (pieces : list string) :
  Forall (fun p => p <> EmptyString /\ PyStr.strip p = p) pieces ->
  PyStr.strip (PyStr.join EmptyString pieces) = PyStr.join EmptyString pieces
  /\ (pieces <> [] -> PyStr.join EmptyString pieces <> EmptyString).
Proof.
  unfold PyStr.join. induction 1 as [| p rest [Hp Sp] Hrest [IHs IHn]]; [now split |].
  destruct rest as [| q rest]; cbn [String.concat].
  - split; [exact Sp | now intros _].
  - cbn [append]. split.
    + apply stripped_append; auto. apply IHn. discriminate.
    + intros _. destruct p; [contradiction | discriminate].
Qed.

Lemma get_text_strip_stripped (e : node) :
  PyStr.strip (get_text_strip e) = get_text_strip e.
Proof.
  unfold get_text_strip. apply stripped_join.
  apply Forall_forall. intros p Hp. apply filter_In in Hp as [Hin Hne].
  apply in_map_iff in Hin as (s & <- & _). split.
  - intros E. now rewrite E in Hne.
  - apply strip_idem.
Qed.

(** X3.  What the program strips has no whitespace left at either end:
    stripping it again changes nothing.  This holds of every tag of a
    parsed quote (also of a tag joined from several pieces) and of the
    name and the biography of every author; the text and the author of a
    quote are not stripped. *)
Theorem extracted_tags_and_bios_are_stripped :
  (forall quote_soup quote t,
      parse_single_quote quote_soup = Ok quote ->
      In t (tags quote) -> PyStr.strip t = t)
  /\ (forall web author_url w a,
         snd (parse_author_bio web author_url w) = Ok a ->
         PyStr.strip (name a) = name a /\ PyStr.strip (bio a) = bio a).
Proof.
  split.
  - intros b q t Hq Ht. destruct (parse_single_quote_inv _ _ Hq) as (x & y & _ & _ & ->).
    cbn [tags] in Ht. apply in_map_iff in Ht as (e & <- & _).
    apply get_text_strip_stripped.
  - intros web h w a. unfold parse_author_bio. run_body; try discriminate.
    intros [= <-]. cbn [name bio]. split; apply strip_idem.
Qed.

Lemma extracted_tags_and_bios_are_stripped_witness :
  let b := Page.quote_block " q1 " " A " "/author/A" [" life"; "love "] in
  let run := parse_author_bio Example.site_dumas "/author/Alexandre-Dumas-fils"
               (start no_files) in
  exists q a,
    parse_single_quote b = Ok q
    /\ tags q = ["life"; "love"]
    /\ text q = " q1 "
    /\ PyStr.strip "love" = "love"
    /\ snd run = Ok a
    /\ name a = "Alexandre Dumas-fils"
    /\ PyStr.strip (name a) = name a.
Proof.
  intros b run. do 2 eexists.
  assert (Hq : parse_single_quote b = Ok _) by (vm_compute; reflexivity).
  assert (Ha : snd run = Ok _) by (vm_compute; reflexivity).
  destruct extracted_tags_and_bios_are_stripped as [Htags Hbio].
  split; [exact Hq |]. split; [reflexivity |]. split; [reflexivity |].
  split; [apply (Htags b _ "love" Hq); cbn; auto |].
  split; [exact Ha |]. split; [reflexivity |].
  apply (Hbio _ _ _ _ Ha).
Defined.

(** ** The tags cell in the file *)

Lemma existsb_append (f : ascii -> bool) (a b : string) :
  existsb f (list_ascii_of_string (a ++ b))
  = existsb f (list_ascii_of_string a) || existsb f (list_ascii_of_string b).
Proof.
  induction a as [| c a IH]; cbn; [reflexivity |]. now rewrite IH, orb_assoc.
Qed.

Lemma str_of_list_has_comma (t1 t2 : string) (rest : list string) :
  existsb Csv.special (list_ascii_of_string (PyStr.str_of_list (t1 :: t2 :: rest))) = true.
Proof.
  unfold PyStr.str_of_list, PyStr.join. cbn [map String.concat].
  rewrite !existsb_append. cbn. rewrite !orb_true_r. reflexivity.
Qed.

(** X4.  In the quotes file the tags cell of a quote with two tags or
    more is always wrapped in double quotes, its own double quotes
    doubled (the list literal holds a comma); the tags cell of a quote
    with no tag is the bare [[]]. *)
Theorem tags_cell_is_quoted_from_two_tags (quote : Quote) :
  (2 <= length (tags quote) ->
   Csv.row (quote_row quote)
   = (Csv.field (text quote) ++ "," ++ Csv.field (author quote) ++ ","
      ++ String PyStr.dquote
           (Csv.double_quotes (PyStr.str_of_list (tags quote))
            ++ String PyStr.dquote EmptyString)
      ++ Csv.CRLF)%string)
  /\ (tags quote = [] ->
      Csv.row (quote_row quote)
      = (Csv.field (text quote) ++ "," ++ Csv.field (author quote) ++ ",[]"
         ++ Csv.CRLF)%string).
Proof.
  split; intros H; unfold quote_row; rewrite row_of_fields;
    cbn [map Csv.cell_text PyStr.join String.concat]; rewrite !append_assoc.
  - destruct (tags quote) as [| t1 [| t2 rest]]; cbn in H; try lia.
    unfold Csv.field at 3. now rewrite str_of_list_has_comma.
  - now rewrite H.
Qed.

Lemma tags_cell_is_quoted_from_two_tags_witness :
  let q := {| text := "q1"; author := "A"; tags := ["life"; "love"] |} in
  2 <= length (tags q)
  /\ Csv.row (quote_row q)
     = ("q1,A," ++ String PyStr.dquote "['life', 'love']"
        ++ String PyStr.dquote Csv.CRLF)%string.
Proof.
  intros q. assert (H : 2 <= length (tags q)) by (cbn; lia).
  split; [exact H |].
  destruct (tags_cell_is_quoted_from_two_tags q) as [Hq _].
  rewrite (Hq H). vm_compute; reflexivity.
Defined.

(** ** What the run leaves alone *)

Lemma requested_infos (tr : list event) (l : list info) :
  requested (tr ++ map Info l) = requested tr.
Proof.
  unfold requested. rewrite flat_map_app.
  replace (flat_map _ (map Info l)) with (@nil string);
    [apply app_nil_r | now induction l].
Qed.

Lemma main_crawl_spins web fuel path w w1 :
  get_all_quotes_and_authors web fuel w = (w1, Spin) ->
  main web fuel path w = (w1, Spin).
Proof. intros H. unfold main, bind. now rewrite H. Qed.

(** The run after the crawl: only log records are added, and only the
    two destinations may change. *)
Lemma main_frame web fuel path w w' r :
  main web fuel path w = (w', r) ->
  requested (trace w')
  = requested (trace (fst (get_all_quotes_and_authors web fuel w)))
  /\ forall p, p <> path -> p <> OUTPUT_AUTHORS_PATH -> files w' p = files w p.
Proof.
  intros Hmain. pose proof (crawl_files web fuel w) as Hfs.
  destruct (get_all_quotes_and_authors web fuel w) as [w1 [[quotes registry] | e |]] eqn:Hc;
    cbn [fst] in *.
  2: rewrite (main_crawl_raises _ _ _ _ _ _ Hc) in Hmain; injection Hmain as <- <-;
    split; [reflexivity | intros p _ _; exact (f_equal (fun f => f p) Hfs)].
  2: rewrite (main_crawl_spins _ _ _ _ _ Hc) in Hmain; injection Hmain as <- <-;
    split; [reflexivity | intros p _ _; exact (f_equal (fun f => f p) Hfs)].
  rewrite (main_after_crawl _ _ _ _ _ _ _ Hc) in Hmain. unfold bind at 1 in Hmain.
  destruct (files w1 path) eqn:Hp.
  3: { rewrite (save_unwritable save_quotes_to_csv quotes path _ _ w1 eq_refl Hp) in Hmain.
       injection Hmain as <- <-. cbn [trace files].
       split; [| intros p _ _; exact (f_equal (fun f => f p) Hfs)].
       apply (requested_infos (trace w1) [SavingQuotes path]). }
  all: destruct (save_quotes_spec quotes path w1) as (w2 & Hrun & Htr & Hq);
    [congruence |]; rewrite Hrun in Hmain; unfold bind at 1 in Hmain;
    destruct (files w2 OUTPUT_AUTHORS_PATH) eqn:Ha.
  all: try (rewrite (save_unwritable save_authors_to_csv registry _ _ _ w2 eq_refl Ha)
              in Hmain;
            injection Hmain as <- <-; cbn [trace files]; split;
            [ rewrite Htr;
              rewrite (requested_infos (trace w1 ++ _) [SavingAuthors OUTPUT_AUTHORS_PATH]);
              apply (requested_infos (trace w1) [SavingQuotes path; QuotesSaved path])
            | intros p Hp1 Hp2; apply String.eqb_neq in Hp1; rewrite Hq, Hp1;
              exact (f_equal (fun f => f p) Hfs) ]).
  all: destruct (save_authors_spec registry OUTPUT_AUTHORS_PATH w2) as (w3 & Hrun3 & Htr3 & Hq3);
    [congruence |]; rewrite Hrun3 in Hmain; unfold logging_info, emit in Hmain;
    injection Hmain as <- <-; cbn [trace files]; split.
  all: try (intros p Hp1 Hp2; apply String.eqb_neq in Hp1, Hp2;
            rewrite Hq3, Hp2, Hq, Hp1; exact (f_equal (fun f => f p) Hfs)).
  all: rewrite Htr3, Htr;
    rewrite (requested_infos _ [SavedSuccessfully]);
    rewrite (requested_infos _ [SavingAuthors OUTPUT_AUTHORS_PATH;
                                AuthorsSaved OUTPUT_AUTHORS_PATH]);
    apply (requested_infos (trace w1) [SavingQuotes path; QuotesSaved path]).
Qed.

(** X5.  Writing the files makes no request: whatever way the run ends,
    the requests of the run are the requests of its crawl. *)
Theorem serialisation_makes_no_request (web : site) (fuel : nat) (path : string)
        (w : world) :
  requested (trace (fst (main web fuel path w)))
  = requested (trace (fst (get_all_quotes_and_authors web fuel w))).
Proof. apply (main_frame web fuel path w _ _ (surjective_pairing _)). Qed.

(** X7.  The authors file has a fixed path.  When the path given for the
    quotes is that same path, a run that returns has written the quotes
    table there first and then the authors table over it: the file ends
    as the authors table. *)
Theorem quotes_are_lost_under_the_authors_path
        (web : site) (fuel : nat) (w w' : world) :
  main web fuel OUTPUT_AUTHORS_PATH w = (w', Ok tt) ->
  exists w1 w2 quotes registry,
    get_all_quotes_and_authors web fuel w = (w1, Ok (quotes, registry))
    /\ save_quotes_to_csv quotes OUTPUT_AUTHORS_PATH w1 = (w2, Ok tt)
    /\ files w2 OUTPUT_AUTHORS_PATH
       = File (table (quotes_header :: map quote_row quotes))
    /\ files w' OUTPUT_AUTHORS_PATH
       = File (table (authors_header :: map author_row (Dict.values registry)))
    /\ files w' OUTPUT_AUTHORS_PATH
       <> File (table (quotes_header :: map quote_row quotes)).
Proof.
  intros Hmain.
  destruct (main_returns _ _ _ _ _ Hmain) as (w1 & quotes & registry & Hc & Ha & _).
  assert (Hp : files w1 OUTPUT_AUTHORS_PATH <> Unwritable).
  { intros Hp. rewrite (main_quotes_unwritable _ _ _ _ _ _ _ Hc Hp) in Hmain.
    discriminate. }
  destruct (save_quotes_spec quotes OUTPUT_AUTHORS_PATH w1 Hp) as (w2 & Hrun & _ & Hfs).
  exists w1, w2, quotes, registry. split; [exact Hc |]. split; [exact Hrun |].
  split; [now rewrite Hfs, String.eqb_refl |]. split; [exact Ha |].
  rewrite Ha, !table_cons. discriminate.
Qed.

Lemma quotes_are_lost_under_the_authors_path_witness :
  let run := main Example.site_abc 1 OUTPUT_AUTHORS_PATH (start no_files) in
  snd run = Ok tt
  /\ files (fst run) OUTPUT_AUTHORS_PATH
     = File ("name,bio" ++ Csv.CRLF ++ "A,bio of A" ++ Csv.CRLF
             ++ "B,bio of B" ++ Csv.CRLF ++ "C,bio of C" ++ Csv.CRLF)%string
  /\ files (fst run) OUTPUT_QUOTES_PATH = Absent
  /\ exists quotes,
      files (fst run) OUTPUT_AUTHORS_PATH
      <> File (table (quotes_header :: map quote_row quotes)).
Proof.
  intros run.
  assert (Hr : snd run = Ok tt) by (vm_compute; reflexivity).
  split; [exact Hr |]. split; [vm_compute; reflexivity |].
  split; [vm_compute; reflexivity |].
  destruct (quotes_are_lost_under_the_authors_path Example.site_abc 1 (start no_files)
              (fst run)) as (w1 & w2 & quotes & registry & _ & _ & _ & _ & Hne).
  - rewrite <- Hr. apply surjective_pairing.
  - now exists quotes.
Defined.

(** ** A site with nothing on it *)

Lemma crawl_of_empty_page web fuel status page0 w :
  web BASE_URL = Http status page0 ->
  select sel_quote page0 = [] ->
  select_one sel_next page0 = None ->
  get_all_quotes_and_authors web fuel w
  = ({| trace := ((trace w ++ [Info StartingToScrape]) ++ [Get BASE_URL])
                 ++ [Info FinishedScraping];
        files := files w |}, Ok ([], [])).
Proof.
  intros Hweb Hq Hn.
  unfold get_all_quotes_and_authors, bind, logging_info, emit, get_single_page_quotes.
  cbn [fst snd]. rewrite (requests_get_http _ _ _ _ _ Hweb), Hq. cbn.
  destruct fuel; cbn; rewrite Hn; reflexivity.
Qed.

(** X8.  A base page with no quote block and no next link: the crawl
    makes its one request and returns nothing, whatever the number of
    turns granted; a run that returns has left the header row alone at the
    quotes destination when the quotes were written, and leaves the
    authors file holding its header row alone. *)
Theorem empty_site_gives_header_only_files
        (web : site) (fuel : nat) (path : string) (status : nat) (page0 : node)
        (w : world) :
  web BASE_URL = Http status page0 ->
  select sel_quote page0 = [] ->
  select_one sel_next page0 = None ->
  snd (get_all_quotes_and_authors web fuel w) = Ok ([], [])
  /\ requested (trace (fst (main web fuel path w))) = requested (trace w) ++ [BASE_URL]
  /\ forall w',
      main web fuel path w = (w', Ok tt) ->
      exists w1 w2,
        get_all_quotes_and_authors web fuel w = (w1, Ok ([], []))
        /\ save_quotes_to_csv [] path w1 = (w2, Ok tt)
        /\ files w2 path = File ("text,author,tags" ++ Csv.CRLF)%string
        /\ files w' OUTPUT_AUTHORS_PATH = File ("name,bio" ++ Csv.CRLF)%string.
Proof.
  intros Hweb Hq Hn.
  pose proof (crawl_of_empty_page web fuel status page0 w Hweb Hq Hn) as Hc.
  split; [now rewrite Hc |]. split.
  - destruct (main_frame web fuel path w _ _ (surjective_pairing _)) as [Hreq _].
    rewrite Hreq, Hc. now read_trace.
  - intros w' Hmain.
    destruct (main_returns _ _ _ _ _ Hmain) as (w1 & quotes & registry & Hc' & Ha & _).
    rewrite Hc in Hc'. injection Hc' as <- <- <-.
    match type of Hmain with main _ _ _ _ = _ =>
      match type of Hc with _ = (?w1, _) =>
        assert (Hp : files w1 path <> Unwritable)
          by (intros Hp; rewrite (main_quotes_unwritable _ _ _ _ _ _ _ Hc Hp) in Hmain;
              discriminate);
        destruct (save_quotes_spec [] path w1 Hp) as (w2 & Hrun & _ & Hfs);
        exists w1, w2
      end
    end.
    split; [exact Hc |]. split; [exact Hrun |].
    split; [now rewrite Hfs, String.eqb_refl | exact Ha].
Qed.

Lemma empty_site_gives_header_only_files_witness :
  let run := main Sample.site_empty 0 OUTPUT_QUOTES_PATH (start Sample.fs_with_notes) in
  select sel_quote Sample.page_empty = []
  /\ snd run = Ok tt
  /\ requested (trace (fst run)) = [BASE_URL]
  /\ files (fst run) OUTPUT_QUOTES_PATH = File ("text,author,tags" ++ Csv.CRLF)%string
  /\ files (fst run) OUTPUT_AUTHORS_PATH = File ("name,bio" ++ Csv.CRLF)%string.
Proof.
  intros run.
  assert (Hq : select sel_quote Sample.page_empty = []) by (vm_compute; reflexivity).
  assert (Hr : snd run = Ok tt) by (vm_compute; reflexivity).
  destruct (empty_site_gives_header_only_files Sample.site_empty 0 OUTPUT_QUOTES_PATH
              200 Sample.page_empty (start Sample.fs_with_notes) eq_refl Hq eq_refl)
    as (_ & Hreq & Hfiles).
  destruct (Hfiles (fst run)) as (w1 & w2 & _ & _ & _ & Ha).
  { rewrite <- Hr. apply surjective_pairing. }
  split; [exact Hq |]. split; [exact Hr |]. split; [exact Hreq |].
  split; [vm_compute; reflexivity | exact Ha].
Defined.

(** ** The first block of a name decides *)

Lemma block_ok_inv (b : node) :
  block_ok b = true ->
  exists q h, parse_single_quote b = Ok q
              /\ getitem (select_one sel_a b) "href" = Ok h.
Proof.
  unfold block_ok, parse_single_quote. intros H.
  apply andb_prop in H as [H H3]. apply andb_prop in H as [H1 H2].
  destruct (text_of (select_one sel_text b)); try discriminate.
  destruct (text_of (select_one sel_author b)); try discriminate.
  destruct (getitem (select_one sel_a b) "href"); try discriminate.
  do 2 eexists. split; reflexivity.
Qed.

Lemma new_author_links_app (l1 l2 : list node) :
  Forall (fun b => block_ok b = true) l1 ->
  forall seen,
    new_author_links seen (l1 ++ l2)
    = new_author_links seen l1
      ++ new_author_links (seen ++ map fst (new_author_links seen l1)) l2.
Proof.
  induction 1 as [| b l1 Hb Hl IH]; intros seen; cbn [app new_author_links map].
  - now rewrite app_nil_r.
  - destruct (block_ok_inv b Hb) as (q & h & -> & ->).
    destruct (existsb (String.eqb (author q)) seen); [apply IH |].
    cbn [app map fst]. rewrite IH, <- app_assoc. reflexivity.
Qed.

Lemma new_author_links_snoc (l : list node) (b : node) (q : Quote) (h : string) :
  Forall (fun b => block_ok b = true) l ->
  parse_single_quote b = Ok q ->
  getitem (select_one sel_a b) "href" = Ok h ->
  new_author_links [] (l ++ [b])
  = new_author_links [] l
    ++ (if existsb (String.eqb (author q)) (map fst (new_author_links [] l))
        then [] else [(author q, h)]).
Proof.
  intros Hl Hq Hh. rewrite (new_author_links_app l [b] Hl). cbn [app new_author_links].
  rewrite Hq, Hh. now destruct (existsb _ _).
Qed.

Lemma for_body_first_links web pages prev done b au acc :
  hoare (first_links web pages prev done au) (for_body web b au acc)
        (post (fun st => first_links web pages prev (done ++ [b]) (snd st))
              (fun _ _ => True)).
Proof.
  intros w (Hok & Hp & Hk & Hb & Hr). unfold first_links.
  run_body; auto.
  all: match goal with
       | Hq : parse_single_quote ?bb = Ok ?q, Hh : getitem _ _ = Ok ?h,
         Hl : Forall _ ?l |- _ =>
           pose proof (block_ok_parsed _ _ _ Hq Hh) as Hbok;
           pose proof (new_author_links_snoc l bb q h Hl Hq Hh) as Hsnoc
       end.
  all: unfold Dict.contains in *; rewrite Hk in *;
    match goal with H : existsb _ _ = _ |- _ => rewrite H in Hsnoc end;
    rewrite app_assoc, Hsnoc; read_trace.
  all: split; [apply Forall_app; split; [exact Hok | now constructor] |].
  all: split; [exact Hp |].
  - rewrite ?app_nil_r. repeat split; auto.
  - rewrite !map_app. cbn [map fst snd]. split; [| split].
    + rewrite <- Hk. apply keys_set_new. unfold Dict.contains. now rewrite Hk.
    + now rewrite Hb.
    + intros u Hu. apply in_app_iff in Hu as [Hu | [<- | []]].
      * destruct (Hr u Hu) as [-> | [H | H]]; auto.
        right. right. apply in_app_iff. now left.
      * right. right. apply in_app_iff. right. now left.
Qed.

Lemma for_quote_soup_first_links web pages prev blocks au :
  hoare (first_links web pages prev [] au) (for_quote_soup web blocks au [])
        (post (fun st => first_links web pages prev blocks (snd st)) (fun _ _ => True)).
Proof.
  apply (for_quote_soup_rule web (fun done au _ => first_links web pages prev done au)
           (fun _ _ => True) blocks) with (done := []); [| reflexivity].
  intros. apply for_body_first_links.
Qed.

Lemma blocks_walked_snoc web tr u status page :
  web u = Http status page ->
  flat_map (select sel_quote) (pages_of web (BASE_URL :: pages_announced tr ++ [u]))
  = blocks_walked web tr ++ select sel_quote page.
Proof.
  intros Hu. unfold blocks_walked, pages_of.
  change (BASE_URL :: pages_announced tr ++ [u])
    with ((BASE_URL :: pages_announced tr) ++ [u]).
  rewrite !flat_map_app. cbn [flat_map]. rewrite Hu. cbn. now rewrite !app_nil_r.
Qed.

Lemma while_body_first_links web a st :
  hoare (first_links_so_far web (authors st)) (while_body web a st)
        (post (fun st' => first_links_so_far web (authors st')) (fun _ _ => True)).
Proof.
  intros w (Hok & _ & Hk & Hb & Hr). run_body; auto.
  match goal with
  | H : for_quote_soup ?wb (select sel_quote ?page) ?au [] ?w0 = _,
    Hw : web ?u = Http _ ?page |- _ =>
      pose proof (for_quote_soup_first_links wb (pages_announced (trace w) ++ [u])
                    (blocks_walked wb (trace w)) (select sel_quote page) au w0) as Hloop;
      rewrite H in Hloop; cbn [fst snd post authors] in Hloop |- *;
      pose proof (blocks_walked_snoc _ (trace w) _ _ _ Hw) as Hsnoc
  end.
  destruct Hloop as (Hok' & Hp' & Hk' & Hb' & Hr').
  - unfold first_links. read_trace. rewrite app_nil_r in *.
    repeat split; auto.
    intros v Hv. apply in_app_iff in Hv as [Hv | [<- | []]].
    + destruct (Hr v Hv) as [-> | [H | H]]; auto. right. left. apply in_app_iff. now left.
    + right. left. apply in_app_iff. right. now left.
  - unfold first_links_so_far, first_links. unfold blocks_walked at 1 2 3.
    rewrite Hp', Hsnoc, app_nil_r. repeat split; try assumption.
    now rewrite <- Hp'.
Qed.

Lemma while_next_button_first_links web fuel st :
  hoare (first_links_so_far web (authors st)) (while_next_button web fuel st)
        (post (fun st' => first_links_so_far web (authors st')) (fun _ _ => True)).
Proof.
  eapply hoare_weaken.
  - apply (while_next_button_rule web (fun st => first_links_so_far web (authors st))
             (fun _ _ => True)).
    + intros a st' _. apply while_body_first_links.
    + auto.
  - auto.
  - intros w [st' | e |]; cbn; tauto.
Qed.

Lemma blocks_walked_base web tr status page :
  web BASE_URL = Http status page ->
  pages_announced tr = [] ->
  blocks_walked web tr = select sel_quote page.
Proof.
  intros Hweb Hp. unfold blocks_walked, pages_of. rewrite Hp. cbn [flat_map].
  rewrite Hweb. cbn. now rewrite app_nil_r.
Qed.

Lemma crawl_first_links web fuel :
  hoare (fun w => trace w = []) (get_all_quotes_and_authors web fuel)
        (post (fun r => first_links_so_far web (snd r)) (fun _ _ => True)).
Proof.
  intros w Hw. unfold get_all_quotes_and_authors. run_body; auto.
  match goal with
  | H : for_quote_soup ?wb (select sel_quote ?page) ?au [] ?w0 = _,
    Hweb : web BASE_URL = Http _ ?page |- _ =>
      pose proof (for_quote_soup_first_links wb [] [] (select sel_quote page) au w0)
        as Hloop;
      rewrite H in Hloop; cbn [fst snd post] in Hloop;
      pose proof (fun tr => blocks_walked_base wb tr _ _ Hweb) as Hbase
  end.
  destruct Hloop as (Hok & Hp & Hk & Hb & Hr).
  { unfold first_links. read_trace. rewrite Hw. cbn.
    repeat split; auto. intros u [<- | []]. now left. }
  use_while while_next_button_first_links. cbn [authors] in Hwhile.
  destruct Hwhile as (Hok' & _ & Hk' & Hb' & Hr').
  { unfold first_links_so_far, first_links. rewrite (Hbase _ Hp), Hp.
    cbn [app] in *. rewrite app_nil_r. repeat split; auto. now rewrite <- Hp. }
  rewrite app_nil_r in Hok', Hk', Hb'.
  unfold first_links_so_far, first_links, blocks_walked in *. read_trace.
  repeat split; auto.
Qed.

(** X9.  Authors are told apart by the name on the listing, not by their
    link.  When the crawl returns, the registry keys and the bio pages
    asked for are those of the first block of each author name, in the
    order of the walk: the link of a later block under a name already met
    is never asked for, whatever it is, and nothing is requested besides
    the base page, the listing pages gone on to and those bio pages. *)
Theorem first_block_of_a_name_decides
        (web : site) (fuel : nat) (fs : string -> fentry)
        (w : world) (quotes : list Quote) (registry : Dict.t Author) :
  get_all_quotes_and_authors web fuel (start fs) = (w, Ok (quotes, registry)) ->
  Dict.keys registry = map fst (new_author_links [] (blocks_walked web (trace w)))
  /\ bios_announced (trace w)
     = map (fun p => (BASE_URL ++ snd p)%string)
           (new_author_links [] (blocks_walked web (trace w)))
  /\ forall u, In u (requested (trace w)) ->
               u = BASE_URL \/ In u (pages_announced (trace w))
               \/ In u (bios_announced (trace w)).
Proof.
  intros Hrun. pose proof (crawl_first_links web fuel (start fs) eq_refl) as H.
  rewrite Hrun in H. cbn [fst snd post] in H.
  destruct H as (_ & _ & Hk & Hb & Hr). rewrite app_nil_r in Hk, Hb. now split.
Qed.

Lemma first_block_of_a_name_decides_witness :
  let run := get_all_quotes_and_authors Sample.site_two_links 1 (start no_files) in
  exists quotes a,
    snd run = Ok (quotes, [("A", a)])
    /\ map author quotes = ["A"; "A"]
    /\ bio a = "the first A"
    /\ new_author_links [] (blocks_walked Sample.site_two_links (trace (fst run)))
       = [("A", "/author/A")]
    /\ requested (trace (fst run)) = [BASE_URL; Example.url "/author/A"]
    /\ bios_announced (trace (fst run)) = [Example.url "/author/A"].
Proof.
  intros run. do 2 eexists.
  assert (Hr : snd run = Ok (_, [("A", _)])) by (vm_compute; reflexivity).
  assert (Hl : new_author_links [] (blocks_walked Sample.site_two_links (trace (fst run)))
               = [("A", "/author/A")]) by (vm_compute; reflexivity).
  split; [exact Hr |]. split; [reflexivity |]. split; [reflexivity |].
  split; [exact Hl |]. split; [vm_compute; reflexivity |].
  assert (Hrun : run = (fst run, Ok (_, [("A", _)])))
    by (rewrite <- Hr; apply surjective_pairing).
  destruct (first_block_of_a_name_decides Sample.site_two_links 1 no_files _ _ _ Hrun)
    as (_ & Hb & _).
  rewrite Hb, Hl. reflexivity.
Defined.

(** ** Every block walked gives a quote *)

Lemma while_body_all_parsed web a st :
  hoare (all_parsed web st) (while_body web a st)
        (post (fun st' => all_parsed web st') (fun _ _ => True)).
Proof.
  intros w H. unfold all_parsed in *. run_body; auto.
  match goal with
  | Hf : for_quote_soup ?wb (select sel_quote ?page) ?au [] ?w0 = _,
    Hw : web ?u = Http _ ?page |- _ =>
      pose proof (for_quote_soup_parsed wb (pages_announced (trace w0))
                    (select sel_quote page) au w0 eq_refl) as Hpage;
      rewrite Hf in Hpage; cbn [fst snd post all_quotes] in Hpage |- *;
      pose proof (blocks_walked_snoc _ (trace w) _ _ _ Hw) as Hsnoc
  end.
  destruct Hpage as [Hqs Hp]. unfold blocks_walked at 1.
  rewrite Hp. read_trace. rewrite Hsnoc, !map_app, H, Hqs. reflexivity.
Qed.

Lemma while_next_button_all_parsed web fuel st :
  hoare (all_parsed web st) (while_next_button web fuel st)
        (post (fun st' => all_parsed web st') (fun _ _ => True)).
Proof.
  eapply hoare_weaken.
  - apply (while_next_button_rule web (all_parsed web) (fun _ _ => True)).
    + intros a st' _. apply while_body_all_parsed.
    + auto.
  - auto.
  - intros w [st' | e |]; cbn; tauto.
Qed.

(** X10.  Quotes are never merged or skipped.  When the crawl returns,
    its quotes are the parses of all the quote blocks of the base page
    and of the listing pages gone on to, page after page and block after
    block: as many quotes as blocks, a block met twice giving two quotes.
    No assumption on the pagination is needed. *)
Theorem every_block_walked_gives_a_quote
        (web : site) (fuel : nat) (fs : string -> fentry)
        (w : world) (quotes : list Quote) (registry : Dict.t Author) :
  get_all_quotes_and_authors web fuel (start fs) = (w, Ok (quotes, registry)) ->
  map Ok quotes = map parse_single_quote (blocks_walked web (trace w))
  /\ length quotes = length (blocks_walked web (trace w)).
Proof.
  intros Hrun.
  assert (H : map Ok quotes = map parse_single_quote (blocks_walked web (trace w))).
  { revert Hrun. unfold get_all_quotes_and_authors. run_body; try discriminate.
    intros [= <- <- <-].
    match goal with
    | Hf : for_quote_soup ?wb (select sel_quote ?page) ?au [] ?w0 = _,
      Hw : web BASE_URL = Http _ ?page |- _ =>
        pose proof (for_quote_soup_parsed wb [] (select sel_quote page) au w0) as Hpage;
        rewrite Hf in Hpage; cbn [fst snd post] in Hpage;
        pose proof (fun tr => blocks_walked_base wb tr _ _ Hw) as Hbase
    end.
    destruct Hpage as [Hqs Hp]; [now read_trace |].
    use_while while_next_button_all_parsed.
    unfold all_parsed in *. cbn [all_quotes app] in Hwhile.
    unfold blocks_walked in *. read_trace. apply Hwhile.
    rewrite (Hbase _ Hp). exact Hqs. }
  split; [exact H |].
  apply (f_equal (@length _)) in H. now rewrite !length_map in H.
Qed.

Lemma every_block_walked_gives_a_quote_witness :
  let run := get_all_quotes_and_authors Sample.site_two_links 1 (start no_files) in
  exists quotes registry,
    snd run = Ok (quotes, registry)
    /\ map text quotes = ["q1"; "q2"]
    /\ length (blocks_walked Sample.site_two_links (trace (fst run))) = 2
    /\ length quotes = length (blocks_walked Sample.site_two_links (trace (fst run))).
Proof.
  intros run. do 2 eexists.
  assert (Hr : snd run = Ok (_, _)) by (vm_compute; reflexivity).
  assert (Hrun : run = (fst run, Ok (_, _)))
    by (rewrite <- Hr; apply surjective_pairing).
  split; [exact Hr |]. split; [reflexivity |]. split; [vm_compute; reflexivity |].
  apply (every_block_walked_gives_a_quote Sample.site_two_links 1 no_files _ _ _ Hrun).
Defined.

(** ** When the run returns *)

(** X11.  A run returns only if its crawl returned and both
    destinations could be opened for writing. *)
Theorem run_returns_only_if_crawl_returns_and_files_open
        (web : site) (fuel : nat) (path : string) (w w' : world) :
  main web fuel path w = (w', Ok tt) ->
  is_ok (snd (get_all_quotes_and_authors web fuel w)) = true
  /\ files w path <> Unwritable
  /\ files w OUTPUT_AUTHORS_PATH <> Unwritable.
Proof.
  intros Hmain. pose proof (crawl_files web fuel w) as Hfs.
  destruct (get_all_quotes_and_authors web fuel w) as [w1 [[quotes registry] | e |]] eqn:Hc;
    cbn [fst snd is_ok] in *.
  2: rewrite (main_crawl_raises _ _ _ _ _ _ Hc) in Hmain; discriminate.
  2: rewrite (main_crawl_spins _ _ _ _ _ Hc) in Hmain; discriminate.
  split; [reflexivity |]. rewrite <- Hfs.
  destruct (files w1 path) eqn:Hp.
  3: rewrite (main_quotes_unwritable _ _ _ _ _ _ _ Hc Hp) in Hmain; discriminate.
  all: destruct (main_quotes_written _ _ path _ _ _ _ Hc) as (w2 & Hrun & Hq);
    [congruence |]; rewrite Hrun in Hmain; unfold bind at 1 in Hmain;
    destruct (files w2 OUTPUT_AUTHORS_PATH) eqn:Ha.
  all: try (rewrite (save_unwritable save_authors_to_csv registry _ _ _ w2 eq_refl Ha)
              in Hmain; discriminate).
  all: split; [discriminate |].
  all: rewrite Hq in Ha; destruct (String.eqb OUTPUT_AUTHORS_PATH path) eqn:E;
    [apply String.eqb_eq in E; rewrite E, Hp; discriminate | congruence].
Qed.

Lemma run_returns_only_if_crawl_returns_and_files_open_witness :
  let w := start Sample.fs_with_notes in
  let run := main Example.site_abc 1 OUTPUT_QUOTES_PATH w in
  snd run = Ok tt
  /\ is_ok (snd (get_all_quotes_and_authors Example.site_abc 1 w)) = true
  /\ files w OUTPUT_QUOTES_PATH <> Unwritable
  /\ files w OUTPUT_AUTHORS_PATH <> Unwritable.
Proof.
  intros w run.
  assert (Hr : snd run = Ok tt) by (vm_compute; reflexivity).
  split; [exact Hr |].
  apply (run_returns_only_if_crawl_returns_and_files_open Example.site_abc 1
           OUTPUT_QUOTES_PATH w (fst run)).
  rewrite <- Hr. apply surjective_pairing.
Defined.

(** ** The links gone after *)

Lemma announced_snoc (tr : list event) (e : event) :
  announced (tr ++ [e])
  = announced tr ++ match e with
                    | Info (FetchingQuotesFromPage u) => [u]
                    | Info (FetchingBioFrom u) => [u]
                    | _ => []
                    end.
Proof.
  unfold announced. rewrite flat_map_app. cbn [flat_map]. now rewrite app_nil_r.
Qed.

Lemma page_after_snoc web page urls p h status p' :
  page_after web page urls = Some p ->
  getitem (select_one sel_next p) "href" = Ok h ->
  web (BASE_URL ++ h)%string = Http status p' ->
  page_after web page (urls ++ [(BASE_URL ++ h)%string]) = Some p'.
Proof.
  revert page. induction urls as [| u urls IH]; intros page Hp Hh Hw.
  - cbn in Hp. injection Hp as ->. cbn [app page_after].
    now rewrite Hh, String.eqb_refl, Hw.
  - cbn [app page_after] in *.
    destruct (getitem (select_one sel_next page) "href"); try discriminate.
    destruct (String.eqb _ u); try discriminate.
    destruct (web u); try discriminate. now apply IH.
Qed.

Lemma snoc_split {A} (l pre post : list A) (x u : A) :
  l ++ [x] = pre ++ u :: post ->
  (pre = l /\ u = x /\ post = [])
  \/ exists post', post = post' ++ [x] /\ l = pre ++ u :: post'.
Proof.
  destruct (exists_last (l := u :: post)) as (post0 & y & E); [discriminate |].
  intros H. destruct post as [| v post].
  - apply app_inj_tail in H as [-> ->]. now left.
  - right. destruct (exists_last (l := v :: post)) as (post' & z & E'); [discriminate |].
    rewrite E' in H. change (pre ++ u :: post' ++ [z]) with (pre ++ (u :: post') ++ [z]) in H.
    rewrite app_assoc in H. apply app_inj_tail in H as [-> ->].
    exists post'. now split.
Qed.

Lemma next_links_snoc web page urls p h :
  next_links_followed web page urls ->
  page_after web page urls = Some p ->
  getitem (select_one sel_next p) "href" = Ok h ->
  next_links_followed web page (urls ++ [(BASE_URL ++ h)%string]).
Proof.
  intros Hn Hp Hh pre u post E.
  destruct (snoc_split _ _ _ _ _ E) as [(-> & -> & ->) | (post' & -> & ->)].
  - now exists p, h.
  - now apply (Hn pre u post').
Qed.

Lemma page_after_chain web page urls p :
  page_after web page urls = Some p ->
  select_one sel_next p = None ->
  chain_from web page urls = true.
Proof.
  revert page. induction urls as [| u urls IH]; intros page Hp Hn.
  - cbn in Hp. injection Hp as ->. cbn. now rewrite Hn.
  - cbn [page_after chain_from] in *.
    destruct (getitem (select_one sel_next page) "href"); try discriminate.
    destruct (String.eqb _ u); try discriminate.
    destruct (web u); try discriminate. cbn. now apply IH.
Qed.

Ltac read_announced :=
  read_trace; rewrite ?announced_snoc; cbn [app]; rewrite ?app_nil_r.

Lemma for_body_announced web P b au acc :
  hoare (fun w => requested (trace w) = BASE_URL :: announced (trace w)
                  /\ pages_announced (trace w) = P)
        (for_body web b au acc)
        (post (fun _ w => requested (trace w) = BASE_URL :: announced (trace w)
                          /\ pages_announced (trace w) = P)
              (fun w _ => requested (trace w) = BASE_URL :: announced (trace w)
                          /\ pages_announced (trace w) = P)).
Proof.
  intros w [Hr Hp]. run_body; read_announced; rewrite ?Hr; auto.
Qed.

Lemma for_quote_soup_announced web P blocks au acc :
  hoare (fun w => requested (trace w) = BASE_URL :: announced (trace w)
                  /\ pages_announced (trace w) = P)
        (for_quote_soup web blocks au acc)
        (post (fun _ w => requested (trace w) = BASE_URL :: announced (trace w)
                          /\ pages_announced (trace w) = P)
              (fun w _ => requested (trace w) = BASE_URL :: announced (trace w)
                          /\ pages_announced (trace w) = P)).
Proof.
  apply (for_quote_soup_rule web
           (fun _ _ _ w => requested (trace w) = BASE_URL :: announced (trace w)
                           /\ pages_announced (trace w) = P) _ blocks)
    with (done := []); [| reflexivity].
  intros. apply for_body_announced.
Qed.

Lemma while_body_on_the_chain web page0 a st :
  select_one sel_next (soup st) = Some a ->
  hoare (on_the_chain web page0 st) (while_body web a st)
        (post (on_the_chain web page0) (fun w _ => along_the_chain web page0 w)).
Proof.
  intros Hnext w (Hr & Hp & Hn). unfold while_body. rewrite <- Hnext.
  run_body; unfold on_the_chain, along_the_chain.
  all: try match goal with
       | H : for_quote_soup ?wb ?bl ?au ?acc ?w0 = _ |- _ =>
           pose proof (for_quote_soup_announced wb (pages_announced (trace w0))
                         bl au acc w0) as Hloop;
           rewrite H in Hloop; cbn [fst snd post] in Hloop;
           destruct Hloop as [Hr' Hp']; [read_announced; now rewrite Hr |];
           cbn [soup]; rewrite Hp'; split; [exact Hr' |]
       end.
  all: read_announced; rewrite ?Hr; auto.
  all: try split; eauto using page_after_snoc, next_links_snoc.
Qed.

Lemma while_next_button_on_the_chain web page0 fuel st :
  hoare (on_the_chain web page0 st) (while_next_button web fuel st)
        (post (fun st' w => on_the_chain web page0 st' w
                            /\ select_one sel_next (soup st') = None)
              (fun w _ => along_the_chain web page0 w)).
Proof.
  apply (while_next_button_rule web (on_the_chain web page0)
           (fun w _ => along_the_chain web page0 w)).
  - intros a st' Hnext. now apply while_body_on_the_chain.
  - intros st' w (Hr & _ & Hn). now split.
Qed.

(** The requests of a crawl and the links it follows. *)
Lemma crawl_along_the_chain web fuel :
  hoare (fun w => trace w = []) (get_all_quotes_and_authors web fuel)
        (fun w r =>
           requested (trace w) = BASE_URL :: announced (trace w)
           /\ forall status page0,
               web BASE_URL = Http status page0 ->
               next_links_followed web page0 (pages_announced (trace w))
               /\ (is_ok r = true ->
                   chain_from web page0 (pages_announced (trace w)) = true)).
Proof.
  intros w Hw. unfold get_all_quotes_and_authors.
  run_body.
  all: try match goal with
       | H : for_quote_soup ?wb ?bl ?au ?acc ?w0 = _ |- _ =>
           pose proof (for_quote_soup_announced wb [] bl au acc w0) as Hloop;
           rewrite H in Hloop; cbn [fst snd post] in Hloop;
           destruct Hloop as [Hr Hp]; [read_announced; now rewrite Hw |]
       end.
  all: try match goal with
       | Hweb : ?wb0 BASE_URL = Http _ ?page |- _ =>
           use_while (fun wb => while_next_button_on_the_chain wb page);
           feed Hwhile;
           [unfold on_the_chain; cbn [soup]; rewrite Hp; split; [exact Hr |];
            split; [reflexivity | intros [| ? ?] ? ? ?; discriminate] |]
       end.
  all: read_announced; rewrite ?Hw; cbn [requested announced flat_map app].
  all: split; [try reflexivity | intros s0 p0 [= <- <-]].
  all: cbn [is_ok]; try solve [unfold along_the_chain, on_the_chain in *; tauto].
  all: split; try discriminate.
  all: try (rewrite Hp; intros [| ? ?] ? ? ?; discriminate).
  all: try (destruct Hwhile as [Hreq Hn]; exact Hn).
  all: destruct Hwhile as ((_ & Hpa & Hn) & Hnone); try exact Hn.
  intros _. now apply (page_after_chain _ _ _ _ Hpa).
Qed.

(** One turn of each loop, link by link. *)
Lemma for_body_requests web (b : node) au acc (q : Quote) (h : string) (w : world) :
  parse_single_quote b = Ok q ->
  getitem (select_one sel_a b) "href" = Ok h ->
  requested (trace (fst (for_body web b au acc w)))
  = requested (trace w)
    ++ (if Dict.contains (author q) au then [] else [(BASE_URL ++ h)%string]).
Proof.
  intros Hq Hh. unfold for_body. rewrite Hq, Hh.
  run_body; now read_trace.
Qed.

Lemma requested_extend (w : world) (tr : list event) :
  requested (trace (extend w tr)) = requested (trace w) ++ requested tr.
Proof. unfold extend, requested. cbn [trace]. apply flat_map_app. Qed.

Lemma while_body_requests web (a : node) (st : crawl_state) (h : string) (w : world) :
  getitem (Some a) "href" = Ok h ->
  exists rest,
    requested (trace (fst (while_body web a st w)))
    = requested (trace w) ++ (BASE_URL ++ h)%string :: rest.
Proof.
  intros Hh. unfold while_body. rewrite Hh.
  unfold bind at 1, lift at 1. unfold bind at 1, logging_info, emit. cbn [fst snd].
  unfold bind at 1, requests_get at 1, bind at 1, emit. cbn [fst snd].
  destruct (web (BASE_URL ++ h)%string) as [k | status page].
  - exists []. cbn. now read_trace.
  - cbn [ret]. unfold get_single_page_quotes.
    destruct (uniform_for_quote_soup web (select sel_quote page) (authors st) [])
      as (tr & r & Hu).
    unfold bind at 1. rewrite Hu. exists (requested tr).
    destruct r; cbn [fst snd ret]; rewrite requested_extend;
      read_trace; now rewrite <- app_assoc.
Qed.

(** The quotes of a crawl that returns are the parses of the blocks
    walked. *)
Lemma crawl_all_parsed web fuel (w0 w : world) quotes registry :
  trace w0 = [] ->
  get_all_quotes_and_authors web fuel w0 = (w, Ok (quotes, registry)) ->
  map Ok quotes = map parse_single_quote (blocks_walked web (trace w)).
Proof.
  intros Hw Hrun.
  revert Hrun. unfold get_all_quotes_and_authors. run_body; try discriminate.
  intros [= <- <- <-].
  match goal with
  | Hf : for_quote_soup ?wb (select sel_quote ?page) ?au [] ?w1 = _,
    Hweb : web BASE_URL = Http _ ?page |- _ =>
      pose proof (for_quote_soup_parsed wb [] (select sel_quote page) au w1) as Hpage;
      rewrite Hf in Hpage; cbn [fst snd post] in Hpage;
      pose proof (fun tr => blocks_walked_base wb tr _ _ Hweb) as Hbase
  end.
  destruct Hpage as [Hqs Hp]; [read_trace; now rewrite Hw |].
  use_while while_next_button_all_parsed.
  unfold all_parsed in *. cbn [all_quotes app] in Hwhile.
  unfold blocks_walked in *. read_trace. apply Hwhile.
  rewrite (Hbase _ Hp). exact Hqs.
Qed.

Lemma crawl_returns_from_base web fuel (w0 w : world) x :
  get_all_quotes_and_authors web fuel w0 = (w, Ok x) ->
  exists status page0, web BASE_URL = Http status page0.
Proof.
  unfold get_all_quotes_and_authors. run_body; try discriminate. intros _. eauto.
Qed.

(** C5, amended.  Every request of a crawl after the first was announced
    just before under the same URL.  The URLs of the listing pages gone on
    to are, one after the other, the base URL with the [href] of the next
    button of the page before appended as it stands; when the crawl
    returns they are the whole chain of next links from the base page,
    and the bio pages asked for are, in the order of the walk, the base
    URL with the [href] of the first [a] of the first block of each
    author name appended as it stands.  Every URL requested is the base
    URL, or the base URL followed by a link of a listing page fetched
    before.  One turn of the [for] loop on a block requests the base URL
    followed by the link of that block when the name is new and nothing
    otherwise; one turn of the [while] loop requests first the base URL
    followed by the link of the button it is given; [parse_author_bio]
    requests the base URL followed by the link it is given. *)
Theorem fetched_url_is_base_url_then_link
        (web : site) (fuel : nat) (fs : string -> fentry)
        (w : world) (r : result (list Quote * Dict.t Author)) :
  get_all_quotes_and_authors web fuel (start fs) = (w, r) ->
  requested (trace w) = BASE_URL :: announced (trace w)
  /\ (forall status page0,
         web BASE_URL = Http status page0 ->
         next_links_followed web page0 (pages_announced (trace w)))
  /\ (forall quotes registry,
         r = Ok (quotes, registry) ->
         exists status page0,
           web BASE_URL = Http status page0
           /\ chain_from web page0 (pages_announced (trace w)) = true
           /\ bios_announced (trace w)
              = map (fun p => (BASE_URL ++ snd p)%string)
                    (new_author_links [] (blocks_walked web (trace w))))
  /\ (forall u,
         In u (requested (trace w)) ->
         u = BASE_URL
         \/ exists page h,
             fetched web (trace w) page /\ link_on page h /\ u = (BASE_URL ++ h)%string)
  /\ (forall quote_soup authors quotes_list quote author_url w0,
         parse_single_quote quote_soup = Ok quote ->
         getitem (select_one sel_a quote_soup) "href" = Ok author_url ->
         requested (trace (fst (for_body web quote_soup authors quotes_list w0)))
         = requested (trace w0)
           ++ (if Dict.contains (author quote) authors
               then [] else [(BASE_URL ++ author_url)%string]))
  /\ (forall next_button st href w0,
         getitem (Some next_button) "href" = Ok href ->
         exists rest,
           requested (trace (fst (while_body web next_button st w0)))
           = requested (trace w0) ++ (BASE_URL ++ href)%string :: rest)
  /\ forall author_url w0,
      requested (trace (fst (parse_author_bio web author_url w0)))
      = requested (trace w0) ++ [(BASE_URL ++ author_url)%string].
Proof.
  intros Hrun.
  pose proof (crawl_along_the_chain web fuel (start fs) eq_refl) as Hchain.
  rewrite Hrun in Hchain. cbn [fst snd] in Hchain. destruct Hchain as [Hreq Hchain].
  split; [exact Hreq |]. split; [intros s p Hweb; now apply (Hchain s p) |].
  split; [| split; [| split; [| split]]].
  - intros quotes registry ->.
    destruct (crawl_returns_from_base _ _ _ _ _ Hrun) as (status & page0 & Hweb).
    exists status, page0. split; [exact Hweb |].
    split; [now apply (Hchain status page0 Hweb) |].
    pose proof (crawl_first_links web fuel (start fs) eq_refl) as H.
    rewrite Hrun in H. cbn [fst snd post] in H.
    destruct H as (_ & _ & _ & Hb & _). now rewrite app_nil_r in Hb.
  - pose proof (crawl_traced web fuel (start fs) eq_refl) as H. rewrite Hrun in H.
    cbn [fst snd] in H. destruct r as [x | e |]; cbn [post] in H; [apply H | exact H ..].
  - intros b au acc q h w0. apply for_body_requests.
  - intros a st h w0. apply while_body_requests.
  - intros h w0. unfold parse_author_bio. run_body; now read_trace.
Qed.

(** The two-page site: the second page is asked for under the link of the
    next button of the first, the three bio pages under the links of the
    blocks where A, B and C are first met. *)
Lemma fetched_url_is_base_url_then_link_witness :
  let run := get_all_quotes_and_authors Example.site_abc 1 (start no_files) in
  requested (trace (fst run)) = BASE_URL :: announced (trace (fst run))
  /\ announced (trace (fst run))
     = [ Example.url "/author/A"; Example.url "/author/B";
         Example.url "/page/2/"; Example.url "/author/C" ]
  /\ pages_announced (trace (fst run)) = [Example.url "/page/2/"]
  /\ getitem (select_one sel_next Example.page1) "href" = Ok "/page/2/"
  /\ next_links_followed Example.site_abc Example.page1 [Example.url "/page/2/"]
  /\ (exists status page0,
         Example.site_abc BASE_URL = Http status page0
         /\ chain_from Example.site_abc page0 (pages_announced (trace (fst run))) = true
         /\ bios_announced (trace (fst run))
            = map (fun p => (BASE_URL ++ snd p)%string)
                  (new_author_links [] (blocks_walked Example.site_abc (trace (fst run)))))
  /\ new_author_links [] (blocks_walked Example.site_abc (trace (fst run)))
     = [("A", "/author/A"); ("B", "/author/B"); ("C", "/author/C")].
Proof.
  intros run.
  destruct (fetched_url_is_base_url_then_link Example.site_abc 1 no_files
              (fst run) (snd run) (surjective_pairing run))
    as (Hreq & Hnext & Hret & _).
  assert (Hp : pages_announced (trace (fst run)) = [Example.url "/page/2/"])
    by (vm_compute; reflexivity).
  split; [exact Hreq |]. split; [vm_compute; reflexivity |].
  split; [exact Hp |]. split; [vm_compute; reflexivity |]. split.
  - rewrite <- Hp. apply (Hnext 200). vm_compute; reflexivity.
  - split; [| vm_compute; reflexivity].
    assert (Hr : exists quotes registry, snd run = Ok (quotes, registry))
      by (do 2 eexists; vm_compute; reflexivity).
    destruct Hr as (quotes & registry & Hr). exact (Hret quotes registry Hr).
Defined.

(** ** The order of the authors file *)

(** C10.  When the run returns, the listing pages gone on to are the
    chain of next links from the base page; the quotes are the parses of
    the quote blocks of these pages, page after page and block after
    block; the registry keys are the author names of these quotes, each
    once, at its first occurrence; and the authors file holds its header
    and then one row per registry entry, name and bio, in the order of
    the registry. *)
Theorem authors_rows_in_first_seen_order
        (web : site) (fuel : nat) (path : string) (fs : string -> fentry)
        (w' : world) :
  main web fuel path (start fs) = (w', Ok tt) ->
  exists w1 quotes registry status page0,
    get_all_quotes_and_authors web fuel (start fs) = (w1, Ok (quotes, registry))
    /\ web BASE_URL = Http status page0
    /\ chain_from web page0 (pages_announced (trace w1)) = true
    /\ map Ok quotes = map parse_single_quote (blocks_walked web (trace w1))
    /\ map fst registry = first_seen [] (map author quotes)
    /\ NoDup (map fst registry)
    /\ files w' OUTPUT_AUTHORS_PATH
       = File (table (authors_header
                        :: map (fun entry => author_row (snd entry)) registry))
    /\ forall a rows,
        table (author_row a :: rows)
        = (Csv.field (name a) ++ "," ++ Csv.field (bio a) ++ Csv.CRLF
           ++ table rows)%string.
Proof.
  intros Hmain.
  destruct (main_returns _ _ _ _ _ Hmain) as (w1 & quotes & registry & Hc & Ha & _).
  destruct (crawl_returns_from_base _ _ _ _ _ Hc) as (status & page0 & Hweb).
  exists w1, quotes, registry, status, page0.
  split; [exact Hc |]. split; [exact Hweb |].
  pose proof (crawl_along_the_chain web fuel (start fs) eq_refl) as Hchain.
  rewrite Hc in Hchain. cbn [fst snd] in Hchain. destruct Hchain as [_ Hchain].
  split; [now apply (Hchain status page0 Hweb) |].
  split; [exact (crawl_all_parsed web fuel (start fs) w1 quotes registry eq_refl Hc) |].
  pose proof (crawl_order web fuel (start fs) I) as H. rewrite Hc in H.
  cbn [fst snd post] in H. unfold Dict.keys in H.
  split; [exact H |]. split; [rewrite H; apply first_seen_NoDup |].
  split; [rewrite Ha; unfold Dict.values; now rewrite map_map |].
  intros a rows. rewrite table_cons. unfold author_row. rewrite row_of_fields.
  cbn [map Csv.cell_text PyStr.join String.concat]. now rewrite !append_assoc.
Qed.

(** The two-page site: the blocks walked are by A, B, B and C, the rows
    are those of A, B and C. *)
Lemma authors_rows_in_first_seen_order_witness :
  let run := main Example.site_abc 1 OUTPUT_QUOTES_PATH (start no_files) in
  let crawl := get_all_quotes_and_authors Example.site_abc 1 (start no_files) in
  snd run = Ok tt
  /\ (exists w1 quotes registry status page0,
         crawl = (w1, Ok (quotes, registry))
         /\ Example.site_abc BASE_URL = Http status page0
         /\ chain_from Example.site_abc page0 (pages_announced (trace w1)) = true
         /\ map Ok quotes
            = map parse_single_quote (blocks_walked Example.site_abc (trace w1))
         /\ map fst registry = first_seen [] (map author quotes)
         /\ NoDup (map fst registry)
         /\ files (fst run) OUTPUT_AUTHORS_PATH
            = File (table (authors_header
                             :: map (fun entry => author_row (snd entry)) registry))
         /\ forall a rows,
             table (author_row a :: rows)
             = (Csv.field (name a) ++ "," ++ Csv.field (bio a) ++ Csv.CRLF
                ++ table rows)%string)
  /\ map (fun b => option_map get_text (select_one sel_author b))
         (blocks_walked Example.site_abc (trace (fst crawl)))
     = [Some "A"; Some "B"; Some "B"; Some "C"]
  /\ files (fst run) OUTPUT_AUTHORS_PATH
     = File ("name,bio" ++ Csv.CRLF ++ "A,bio of A" ++ Csv.CRLF
             ++ "B,bio of B" ++ Csv.CRLF ++ "C,bio of C" ++ Csv.CRLF)%string.
Proof.
  intros run crawl.
  assert (Hr : snd run = Ok tt) by (vm_compute; reflexivity).
  split; [exact Hr |].
  split; [| split; vm_compute; reflexivity].
  apply (authors_rows_in_first_seen_order Example.site_abc 1 OUTPUT_QUOTES_PATH no_files).
  rewrite <- Hr. apply surjective_pairing.
Defined.
